(** * smallsh: a shallow embedding of [main.c] and its verified properties

    The development follows the layout of [main.c]:
    - [CStr]      C strings, the libc string routines the shell calls
                  ([strstr], [strtok_r], [snprintf "%d"]) and the outcome
                  type of code that may run into undefined behaviour;
    - [Expander]  [variableExpansion];
    - [Parser]    [struct command] and [processCommand];
    - [Shell]     the process with its global [foregroundMode],
                  [handle_SIGTSTP], [checkBackgroundProcesses],
                  [runCommand] and the body of the loop of [main], over
                  explicit answers of the system calls.
    The definitions come first; the facts about them follow, function by
    function.

    Strings are lists of characters without their terminating NUL; a
    [char *] that may be [NULL] is an [option]. *)

From Stdlib Require Import ZArith Ascii String List Lia DecimalString.
From stdpp Require Import base list.

Open Scope Z_scope.

(* ================================================================== *)
(** ** C strings and libc                                              *)
(* ================================================================== *)

Module CStr.

(** A NUL-terminated C string, without the terminator. *)
Definition cstr := list ascii.

(** String literals of the source. *)
Definition lit (s : string) : cstr := list_ascii_of_string s.
Arguments lit : simpl never.

(** What can go wrong in C where the source does not check. *)
Inductive fault : Type :=
| OutOfBounds         (* an access outside the bounds of an array *)
| NullDereference     (* a libc string routine applied to NULL *)
| OutOfFuel.          (* the model's loop bound was reached *)

Inductive result (A : Type) : Type :=
| Ok (a : A)
| Fault (f : fault).
Arguments Ok {A} a.
Arguments Fault {A} f.

(** [result] is an error monad; stdpp's [x ← r; k] notation sequences
    fallible steps. *)
#[global] Instance result_ret : MRet result := fun A a => Ok a.
#[global] Instance result_bind : MBind result := fun A B k r =>
  match r with
  | Ok a => k a
  | Fault f => Fault f
  end.

Definition ascii_eqb (a b : ascii) : bool := Ascii.eqb a b.
Arguments ascii_eqb : simpl never.

(** [strcmp(a, b) == 0]. *)
Fixpoint streq (a b : cstr) : bool :=
  match a, b with
  | [], [] => true
  | x :: a', y :: b' => ascii_eqb x y && streq a' b'
  | _, _ => false
  end.

(** Does [s] start with [p]?  ([strncmp(s, p, strlen(p)) == 0]) *)
Fixpoint starts_with (p s : cstr) : bool :=
  match p, s with
  | [], _ => true
  | x :: p', y :: s' => ascii_eqb x y && starts_with p' s'
  | _ :: _, [] => false
  end.

(** [strstr(hay, needle)]: the offset of the first occurrence of [needle]
    in [hay], [None] for the NULL result. *)
Fixpoint strstr (hay needle : cstr) : option nat :=
  match hay with
  | [] => if starts_with needle [] then Some 0%nat else None
  | _ :: hay' =>
      if starts_with needle hay then Some 0%nat
      else option_map S (strstr hay' needle)
  end.

(** Is [c] one of the delimiter characters [delim]? *)
Definition is_delim (delim : cstr) (c : ascii) : bool :=
  existsb (ascii_eqb c) delim.

(** [str += strspn(str, delim)]: step over leading delimiters. *)
Fixpoint skip_delims (delim str : cstr) : cstr :=
  match str with
  | c :: str' => if is_delim delim c then skip_delims delim str' else str
  | [] => []
  end.

(** The token that starts at [str], and what follows the delimiter that
    ends it (the delimiter is overwritten with NUL). *)
Fixpoint span_token (delim str : cstr) : cstr * cstr :=
  match str with
  | [] => ([], [])
  | c :: str' =>
      if is_delim delim c then ([], str')
      else let (tok, rest) := span_token delim str' in (c :: tok, rest)
  end.

(** [strtok_r(str, delim, &saveptr)]; a call with [str == NULL] is the
    same function applied to the saved pointer.  Returns the token
    ([None] for NULL) and the new value of [saveptr]. *)
Definition strtok_r (str delim : cstr) : option cstr * cstr :=
  match skip_delims delim str with
  | [] => (None, [])
  | s => let (tok, rest) := span_token delim s in (Some tok, rest)
  end.

(** [snprintf(buf, n, "%d", z)] with a large enough [n]: the decimal text
    of [z], with a leading minus sign for a negative number. *)
Definition dec (z : Z) : cstr :=
  list_ascii_of_string (NilZero.string_of_int (Z.to_int z)).

(** The characters [%d] can print. *)
Definition is_dec_char (c : ascii) : bool :=
  match c with
  | "0" | "1" | "2" | "3" | "4" | "5" | "6" | "7" | "8" | "9" | "-" => true
  | _ => false
  end%char.

(** Every character of [s] is a digit or a minus sign. *)
Definition dec_chars (s : cstr) : Prop :=
  Forall (fun c => is_dec_char c = true) s.

(** No character of [s] is a digit or a minus sign. *)
Definition no_dec_chars (s : cstr) : Prop :=
  Forall (fun c => is_dec_char c = false) s.

(** Number of occurrences of [needle] in [s] found by a left-to-right
    scan that resumes after the end of each occurrence (so occurrences
    do not overlap).  [skip] is the number of characters still covered by
    the occurrence found last. *)
Fixpoint occurrences_from (skip : nat) (needle s : cstr) : nat :=
  match s with
  | [] => 0%nat
  | _ :: s' =>
      match skip with
      | S k => occurrences_from k needle s'
      | O =>
          if starts_with needle s
          then S (occurrences_from (pred (length needle)) needle s')
          else occurrences_from 0 needle s'
      end
  end.

Definition occurrences (needle s : cstr) : nat := occurrences_from 0 needle s.

End CStr.
Import CStr.

(* ================================================================== *)
(** ** variableExpansion                                               *)
(* ================================================================== *)

Module Expander.

(** [char newString[2048]] *)
Definition NEWSTRING_SIZE : nat := 2048.

(** The body of [while (1)] in [variableExpansion].  [pString] is the
    part of the source string not yet read and [newString] the part of
    the buffer already written (so [pNewString - newString] is its
    length).  The loop leaves through [break] with the buffer's content. *)
Fixpoint expansion_loop (fuel : nat) (variable intToString : cstr)
    (pString newString : cstr) : result cstr :=
  match fuel with
  | O => Fault OutOfFuel
  | S fuel' =>
      match strstr pString variable with
      | None =>
          (* strcpy(pNewString, pString); break; *)
          if (length newString + length pString + 1 <=? NEWSTRING_SIZE)%nat
          then Ok (newString ++ pString)
          else Fault OutOfBounds
      | Some off =>
          (* the two memcpy calls, then pString = pVariable + variable_len *)
          if (length newString + off + length intToString <=? NEWSTRING_SIZE)%nat
          then expansion_loop fuel' variable intToString
                 (drop (off + length variable) pString)
                 (newString ++ take off pString ++ intToString)
          else Fault OutOfBounds
      end
  end.

(** [variableExpansion(string, variable, integer)]; the result is the new
    content of [string] after the final [strcpy(string, newString)]. *)
Definition variableExpansion (string variable : cstr) (integer : Z)
  : result cstr :=
  expansion_loop (S (length string)) variable (dec integer) string [].

(** The marker [main] passes. *)
Definition marker : cstr := lit "$$".

(** The specification's words: one left-to-right pass over the line that
    replaces the marker where it stands and copies every other
    character. *)
Fixpoint replace_markers (text : cstr) (line : cstr) : cstr :=
  match line with
  | a :: (b :: rest') as rest =>
      if ascii_eqb "$" a && ascii_eqb "$" b
      then text ++ replace_markers text rest'
      else a :: replace_markers text rest
  | [a] => [a]
  | [] => []
  end.

End Expander.

(* ================================================================== *)
(** ** struct command and processCommand                               *)
(* ================================================================== *)

Module Parser.

(** [struct command].  [arguments] is the array [char *arguments[512]],
    slot by slot; a NULL slot is [None]. *)
Record command : Type := {
  arguments : list (option cstr);
  inputFile : option cstr;
  outputFile : option cstr;
  backgroundRun : bool
}.

Definition ARGUMENTS_SIZE : nat := 512.

Definition set_argument (i : nat) (tok : cstr) (c : command) : command :=
  {| arguments := <[i := Some tok]> (arguments c);
     inputFile := inputFile c;
     outputFile := outputFile c;
     backgroundRun := backgroundRun c |}.

Definition set_inputFile (f : cstr) (c : command) : command :=
  {| arguments := arguments c;
     inputFile := Some f;
     outputFile := outputFile c;
     backgroundRun := backgroundRun c |}.

Definition set_outputFile (f : cstr) (c : command) : command :=
  {| arguments := arguments c;
     inputFile := inputFile c;
     outputFile := Some f;
     backgroundRun := backgroundRun c |}.

(** The strings in the slots before the first NULL.  For an array that
    holds a NULL this is the argument vector its readers see ([execvp],
    and the loop of [main] that clears the array); for an array without
    a NULL it is every string of the array, and a reader runs on past
    its last slot (see [null_terminated]). *)
Fixpoint argv (slots : list (option cstr)) : list cstr :=
  match slots with
  | Some a :: slots' => a :: argv slots'
  | _ => []
  end.

(** Does the array hold a NULL?  A reader that looks for the
    terminator stays inside the array only then. *)
Definition null_terminated (slots : list (option cstr)) : bool :=
  (length (argv slots) <? length slots)%nat.

(** A libc routine that reads its string argument ([strdup], [strlen],
    [strcmp]) applied to a pointer that may be NULL. *)
Definition deref (p : option cstr) : result cstr :=
  match p with
  | Some s => Ok s
  | None => Fault NullDereference
  end.

(** The [for (i = 1; token != NULL; i++)] loop of [processCommand]. *)
Fixpoint token_loop (fuel : nat) (token : option cstr) (saveptr1 : cstr)
    (i : nat) (currCommand : command) : result command :=
  match token with
  | None => Ok currCommand
  | Some tok =>
      match fuel with
      | O => Fault OutOfFuel
      | S fuel' =>
          if streq tok (lit "<") then
            let (token1, saveptr2) := strtok_r saveptr1 (lit " ") in
            file ← deref token1;
            let (token2, saveptr3) := strtok_r saveptr2 (lit " ") in
            token_loop fuel' token2 saveptr3 (S i) (set_inputFile file currCommand)
          else if streq tok (lit ">") then
            let (token1, saveptr2) := strtok_r saveptr1 (lit " ") in
            file ← deref token1;
            let (token2, saveptr3) := strtok_r saveptr2 (lit " ") in
            token_loop fuel' token2 saveptr3 (S i) (set_outputFile file currCommand)
          else if (i <? ARGUMENTS_SIZE)%nat then
            let (token1, saveptr2) := strtok_r saveptr1 (lit " ") in
            token_loop fuel' token1 saveptr2 (S i) (set_argument i tok currCommand)
          else Fault OutOfBounds
      end
  end.

(** The last [if] of [processCommand]: /dev/null for a background
    command while [foregroundMode] is off. *)
Definition default_files (foregroundMode : bool) (c : command) : command :=
  if backgroundRun c && negb foregroundMode then
    let c1 := match inputFile c with
              | None => set_inputFile (lit "/dev/null") c
              | Some _ => c
              end in
    match outputFile c1 with
    | None => if negb foregroundMode
              then set_outputFile (lit "/dev/null") c1 else c1
    | Some _ => c1
    end
  else c.

(** [processCommand(command)].  [foregroundMode] is the global it reads.
    [block] is the content of the memory [malloc] returns: the function
    overwrites [arguments] and [backgroundRun] and leaves [inputFile] and
    [outputFile] as it finds them. *)
Definition processCommand (foregroundMode : bool) (block : command)
  : cstr -> result command := fun command =>
  (* strrchr(command, '\0') - 1 points at the last character *)
  lastc ← match last command with
          | Some c => Ok c
          | None => Fault OutOfBounds
          end;
  let background := ascii_eqb lastc "&"%char in
  let command := if background
                 then take (length command - 1) command else command in
  let currCommand :=
    {| arguments := replicate ARGUMENTS_SIZE None;
       inputFile := inputFile block;
       outputFile := outputFile block;
       backgroundRun := background |} in
  let (token, saveptr1) := strtok_r command (lit " ") in
  first ← deref token;
  let currCommand := set_argument 0 first currCommand in
  let (token, saveptr1) := strtok_r saveptr1 (lit " ") in
  currCommand ← token_loop (S (length saveptr1)) token saveptr1 1 currCommand;
  Ok (default_files foregroundMode currCommand).

(** The line cut at its delimiters, empty pieces dropped: the list of
    tokens successive [strtok_r] calls hand out.  [cur] is the token
    read so far. *)
Fixpoint tokens_acc (delim cur str : cstr) : list cstr :=
  match str with
  | [] => match cur with [] => [] | _ => [cur] end
  | c :: str' =>
      if is_delim delim c then
        match cur with
        | [] => tokens_acc delim [] str'
        | _ => cur :: tokens_acc delim [] str'
        end
      else tokens_acc delim (cur ++ [c]) str'
  end.

Definition tokens (str : cstr) : list cstr := tokens_acc (lit " ") [] str.

(** The loop of [processCommand] over the list of the tokens that
    follow the first one. *)
Fixpoint scan_tokens (toks : list cstr) (i : nat) (c : command)
  : result command :=
  match toks with
  | [] => Ok c
  | tok :: rest =>
      if streq tok (lit "<") then
        match rest with
        | [] => Fault NullDereference
        | file :: rest' => scan_tokens rest' (S i) (set_inputFile file c)
        end
      else if streq tok (lit ">") then
        match rest with
        | [] => Fault NullDereference
        | file :: rest' => scan_tokens rest' (S i) (set_outputFile file c)
        end
      else if (i <? ARGUMENTS_SIZE)%nat then
        scan_tokens rest (S i) (set_argument i tok c)
      else Fault OutOfBounds
  end.

(** [<] and [>], the two redirection operators. *)
Definition is_operator (tok : cstr) : bool :=
  streq tok (lit "<") || streq tok (lit ">").

(** The structure as the loop of [processCommand] finds it: every
    argument slot NULL but the first, the file pointers as [malloc] left
    them. *)
Definition initial_command (block : command) (background : bool)
    (first : cstr) : command :=
  set_argument 0 first
    {| arguments := replicate ARGUMENTS_SIZE None;
       inputFile := inputFile block;
       outputFile := outputFile block;
       backgroundRun := background |}.

(** The spec's words for redirections: reading the tokens after the
    first from left to right, an operator [<] or [>] consumes the token
    behind it as its operand; [redirection op toks] is the operand of the
    last operator [op], [None] when there is no such operator. *)
Fixpoint redirection (op : cstr) (toks : list cstr) : option cstr :=
  match toks with
  | [] => None
  | tok :: rest =>
      if is_operator tok then
        match rest with
        | [] => None
        | file :: rest' =>
            match redirection op rest' with
            | Some later => Some later
            | None => if streq tok op then Some file else None
            end
        end
      else redirection op rest
  end.

(** The spec's words for the argument vector: the first token, then
    every later token that is neither an operator nor the operand an
    operator consumed. *)
Fixpoint plain_tokens (toks : list cstr) : list cstr :=
  match toks with
  | [] => []
  | tok :: rest =>
      if is_operator tok then
        match rest with
        | [] => []
        | _ :: rest' => plain_tokens rest'
        end
      else tok :: plain_tokens rest
  end.

Definition dev_null : cstr := lit "/dev/null".

(** The tokens that stand before the first redirection operator. *)
Fixpoint plain_prefix (toks : list cstr) : list cstr :=
  match toks with
  | [] => []
  | tok :: rest => if is_operator tok then [] else tok :: plain_prefix rest
  end.

(** The state of the argument array when the loop has stored the
    strings [strs] in its first slots and every later slot is NULL. *)
Definition filled (slots : list (option cstr)) (strs : list cstr) : Prop :=
  length slots = ARGUMENTS_SIZE /\
  (forall j s, strs !! j = Some s -> slots !! j = Some (Some s)) /\
  (forall j, (length strs <= j < length slots)%nat -> slots !! j = Some None).

(** A block whose two file pointers are NULL: memory fresh from the
    system, or the block [main] released after its
    [currCommand->inputFile=NULL; currCommand->outputFile=NULL;]. *)
Definition cleared (block : command) : Prop :=
  inputFile block = None /\ outputFile block = None.

Definition zero_block : command :=
  {| arguments := replicate ARGUMENTS_SIZE None;
     inputFile := None; outputFile := None; backgroundRun := false |}.

(** A block as the allocator may hand it out again: memory in which a
    pointer was left where [inputFile] lies. *)
Definition stale_block (file : cstr) : command :=
  {| arguments := replicate ARGUMENTS_SIZE None;
     inputFile := Some file; outputFile := None; backgroundRun := false |}.

(** An operator that stands last among the tokens it is read with, so
    that no token is left for it to take as its operand. *)
Fixpoint dangling (toks : list cstr) : bool :=
  match toks with
  | [] => false
  | tok :: rest =>
      if is_operator tok then
        match rest with
        | [] => true
        | _ :: rest' => dangling rest'
        end
      else dangling rest
  end.

(** A word as it is typed: not empty and without a blank. *)
Definition is_word (w : cstr) : Prop := w <> [] /\ ~ In " "%char w.

(** Words written out with one blank between them. *)
Fixpoint join_words (ws : list cstr) : cstr :=
  match ws with
  | [] => []
  | [w] => w
  | w :: ws' => w ++ " "%char :: join_words ws'
  end.

End Parser.

(* ================================================================== *)
(** ** The shell process, its signal handler and runCommand            *)
(* ================================================================== *)

Module Shell.
Import Parser.

(** The action bound to a signal. *)
Inductive disposition : Type := SIG_DFL | SIG_IGN | SIG_HANDLER.

(** The state of a process running [main.c] that the functions below read
    or change.  [stdout] and [stderr] are the characters sent to the two
    streams, in program order. *)
Record process : Type := {
  foregroundMode : bool;      (* _Bool foregroundMode *)
  stdout : list ascii;
  stderr : list ascii;
  cwd : cstr;                 (* the working directory *)
  sigint : disposition;
  sigtstp : disposition;
  fd0 : option cstr;          (* the file standard input was redirected to *)
  fd1 : option cstr           (* the file standard output was redirected to *)
}.

Definition set_foregroundMode (b : bool) (p : process) : process :=
  {| foregroundMode := b; stdout := stdout p; stderr := stderr p;
     cwd := cwd p; sigint := sigint p; sigtstp := sigtstp p;
     fd0 := fd0 p; fd1 := fd1 p |}.

Definition put_stdout (s : list ascii) (p : process) : process :=
  {| foregroundMode := foregroundMode p; stdout := stdout p ++ s;
     stderr := stderr p; cwd := cwd p; sigint := sigint p;
     sigtstp := sigtstp p; fd0 := fd0 p; fd1 := fd1 p |}.

Definition put_stderr (s : list ascii) (p : process) : process :=
  {| foregroundMode := foregroundMode p; stdout := stdout p;
     stderr := stderr p ++ s; cwd := cwd p; sigint := sigint p;
     sigtstp := sigtstp p; fd0 := fd0 p; fd1 := fd1 p |}.

Definition set_cwd (d : cstr) (p : process) : process :=
  {| foregroundMode := foregroundMode p; stdout := stdout p;
     stderr := stderr p; cwd := d; sigint := sigint p;
     sigtstp := sigtstp p; fd0 := fd0 p; fd1 := fd1 p |}.

Definition set_sigint (d : disposition) (p : process) : process :=
  {| foregroundMode := foregroundMode p; stdout := stdout p;
     stderr := stderr p; cwd := cwd p; sigint := d;
     sigtstp := sigtstp p; fd0 := fd0 p; fd1 := fd1 p |}.

Definition set_sigtstp (d : disposition) (p : process) : process :=
  {| foregroundMode := foregroundMode p; stdout := stdout p;
     stderr := stderr p; cwd := cwd p; sigint := sigint p;
     sigtstp := d; fd0 := fd0 p; fd1 := fd1 p |}.

Definition set_fd0 (f : cstr) (p : process) : process :=
  {| foregroundMode := foregroundMode p; stdout := stdout p;
     stderr := stderr p; cwd := cwd p; sigint := sigint p;
     sigtstp := sigtstp p; fd0 := Some f; fd1 := fd1 p |}.

Definition set_fd1 (f : cstr) (p : process) : process :=
  {| foregroundMode := foregroundMode p; stdout := stdout p;
     stderr := stderr p; cwd := cwd p; sigint := sigint p;
     sigtstp := sigtstp p; fd0 := fd0 p; fd1 := Some f |}.

Definition NUL : ascii := "000"%char.
Definition newline : cstr := ["010"%char].

(** [write(STDOUT_FILENO, buf, count)] where [buf] is a string literal:
    the first [count] bytes of the literal and its terminating NUL. *)
Definition write_stdout (buf : cstr) (count : nat) (p : process) : process :=
  put_stdout (take count (buf ++ [NUL])) p.

(** [printf(pre "%d" post, n)] *)
Definition printf_d (pre : cstr) (n : Z) (post : cstr) (p : process)
  : process :=
  put_stdout (pre ++ dec n ++ post) p.

(** [printf(pre "%s" post, s)] *)
Definition printf_s (pre : cstr) (s : cstr) (post : cstr) (p : process)
  : process :=
  put_stdout (pre ++ s ++ post) p.

(** [perror(s)]: [s], a colon and a blank, the text of [errno]. *)
Definition perror (s : cstr) (errtext : cstr) (p : process) : process :=
  put_stderr (s ++ lit ": " ++ errtext ++ newline) p.

Definition enter_message : cstr :=
  lit " Entering foreground-only mode (& is now ignored)" ++ newline.
Definition exit_message : cstr :=
  lit " Exiting foreground-only mode" ++ newline.
Definition prompt : cstr := lit ": ".

(** [handle_SIGTSTP(signo)] *)
Definition handle_SIGTSTP (p : process) : process :=
  let p1 :=
    if negb (foregroundMode p) then
      set_foregroundMode true (write_stdout enter_message 50 p)
    else
      set_foregroundMode false (write_stdout exit_message 30 p) in
  write_stdout prompt 3 p1.

(** The macros of <sys/wait.h> that take a wait status apart.  The header
    belongs to the platform, so the shell is modelled over any choice of
    the four macros. *)
Class WaitStatus : Type := {
  WIFEXITED : Z -> bool;
  WEXITSTATUS : Z -> Z;
  WIFSIGNALED : Z -> bool;
  WTERMSIG : Z -> Z
}.

(** What the system answers to the calls [runCommand] makes. *)
Record kernel : Type := {
  getenv_HOME : option cstr;                 (* getenv("HOME") *)
  chdir_to : cstr -> option cstr -> option cstr;
    (* chdir(path) from a working directory: the new working directory,
       [None] when the call fails *)
  fork_returns : Z;                          (* fork() *)
  fork_errtext : cstr;                       (* strerror(errno) after fork *)
  waitpid_status : option Z;
    (* the status waitpid(spawnPid, &fStatus, 0) stores; [None] when the
       call fails and stores nothing *)
  open_rdonly : cstr -> bool;                (* open(path, O_RDONLY) != -1 *)
  open_trunc : cstr -> bool;
    (* open(path, O_WRONLY | O_CREAT | O_TRUNC, 0644) != -1 *)
  dup2_errtext : Z -> option cstr;
    (* dup2(fd, newfd): [Some] text of errno when it returns -1 *)
  execvp_succeeds : cstr -> list cstr -> bool
}.

(** How a call of [runCommand] ends. *)
Inductive outcome : Type :=
| Returns (fStatus : Z) (p : process)       (* return fStatus; *)
| Exits (code : Z) (p : process)            (* exit(code); *)
| Execs (file : cstr) (args : list cstr) (p : process)
                                            (* execvp replaced the image *)
| Undefined (f : fault).

(** [chdir(path)], its result ignored. *)
Definition chdir (k : kernel) (path : option cstr) (p : process) : process :=
  match chdir_to k (cwd p) path with
  | Some d => set_cwd d p
  | None => p
  end.

(** The [case 0:] branch of [runCommand]: the code the child runs. *)
Definition child (k : kernel) (currCommand : command) (name : cstr)
    (p : process) : outcome :=
  let p := set_sigtstp SIG_IGN p in
  let p := if negb (backgroundRun currCommand) || foregroundMode p
           then set_sigint SIG_DFL p else p in
  let after_input : process + outcome :=
    match inputFile currCommand with
    | None => inl p
    | Some file =>
        if open_rdonly k file then
          match dup2_errtext k 0 with
          | None => inl (set_fd0 file p)
          | Some e => inl (perror (lit "source dup2()") e p)
          end
        else
          inr (Exits 1 (printf_s (lit "cannot open ") file
                          (lit " for input" ++ newline) p))
    end in
  match after_input with
  | inr o => o
  | inl p =>
      let after_output : process + outcome :=
        match outputFile currCommand with
        | None => inl p
        | Some file =>
            if open_trunc k file then
              match dup2_errtext k 1 with
              | None => inl (set_fd1 file p)
              | Some e => inl (perror (lit "target dup2") e p)
              end
            else
              inr (Exits 1 (printf_s (lit "cannot open ") file
                              (lit " for output" ++ newline) p))
        end in
      match after_output with
      | inr o => o
      | inl p =>
          (* execvp reads [arguments] up to its NULL; with no NULL in
             the array it reads on past [arguments[511]] *)
          if null_terminated (arguments currCommand) then
            if execvp_succeeds k name (argv (arguments currCommand))
            then Execs name (argv (arguments currCommand)) p
            else Exits 1 (printf_s [] name
                            (lit ": command not found" ++ newline) p)
          else Undefined OutOfBounds
      end
  end.

(** The [default:] branch of [runCommand]: the parent after [fork]. *)
Definition parent {W : WaitStatus} (k : kernel) (currCommand : command)
    (spawnPid : Z) (fStatus : Z) (p : process) : outcome :=
  let '(spawnPid, fStatus, p) :=
    if negb (backgroundRun currCommand) || foregroundMode p then
      let '(spawnPid, fStatus) :=
        match waitpid_status k with
        | Some st => (spawnPid, st)
        | None => (-1, fStatus)
        end in
      let p := if WIFSIGNALED fStatus
               then printf_d (lit " terminated by signal ") (WTERMSIG fStatus)
                      newline p
               else p in
      (spawnPid, fStatus, p)
    else (spawnPid, fStatus, p) in
  let p := if backgroundRun currCommand && negb (foregroundMode p)
           then printf_d (lit "background pid is ") spawnPid newline p
           else p in
  Returns fStatus p.

(** [runCommand(currCommand, fStatus)] in the process [p]. *)
Definition runCommand {W : WaitStatus} (k : kernel) (p : process)
    (currCommand : command) (fStatus : Z) : outcome :=
  match arguments currCommand !! 0%nat with
  | Some (Some name) =>
      if streq name (lit "exit") then
        Exits 0 p
      else if streq name (lit "cd") then
        match arguments currCommand !! 1%nat with
        | Some None => Returns fStatus (chdir k (getenv_HOME k) p)
        | Some (Some dir) => Returns fStatus (chdir k (Some dir) p)
        | None => Undefined OutOfBounds
        end
      else if streq name (lit "status") then
        if WIFEXITED fStatus then
          Returns fStatus
            (printf_d (lit "exit value ") (WEXITSTATUS fStatus) newline p)
        else if WIFSIGNALED fStatus then
          Returns fStatus
            (printf_d (lit "terminated by signal ") (WTERMSIG fStatus)
               newline p)
        else Returns fStatus p
      else
        let spawnPid := fork_returns k in
        if spawnPid =? -1 then
          Exits 1 (perror (lit "fork()" ++ newline) (fork_errtext k) p)
        else if spawnPid =? 0 then
          child k currCommand name p
        else
          parent k currCommand spawnPid fStatus p
  | Some None => Undefined NullDereference    (* strcmp(NULL, "exit") *)
  | None => Undefined OutOfBounds
  end.

(** [checkBackgroundProcesses()].  [reaped] lists the answers of the
    successive [waitpid(-1, &bStatus, WNOHANG)] calls that return a
    child: its pid and its status. *)
Definition checkBackgroundProcesses {W : WaitStatus}
    (reaped : list (Z * Z)) (p : process) : process :=
  fold_left
    (fun p '(bPid, bStatus) =>
       let p := printf_d (lit "background pid ") bPid (lit " is done: ") p in
       if WIFEXITED bStatus then
         printf_d (lit "exit value ") (WEXITSTATUS bStatus) newline p
       else if WIFSIGNALED bStatus then
         printf_d (lit "terminated by signal ") (WTERMSIG bStatus) newline p
       else p)
    reaped p.

(** One turn of the [while (1)] loop of [main], from
    [checkBackgroundProcesses()] to the return of [runCommand].  [input]
    is the line [fgets] stored, its newline removed; [pid] and [fStatus]
    are the locals of [main]; [block] is what [malloc] hands to
    [processCommand].  [Returns] is the value [fStatus] has when the loop
    turns again. *)
Definition main_loop_body {W : WaitStatus} (k : kernel)
    (reaped : list (Z * Z)) (block : command) (input : cstr) (pid : Z)
    (fStatus : Z) (p : process) : outcome :=
  let p := checkBackgroundProcesses reaped p in
  let p := put_stdout prompt p in
  if streq input [] then Returns fStatus p
  else if match input with c :: _ => ascii_eqb c "#"%char | [] => false end
  then Returns fStatus p
  else
    match Expander.variableExpansion input Expander.marker pid with
    | Fault f => Undefined f
    | Ok input =>
        match processCommand (foregroundMode p) block input with
        | Fault f => Undefined f
        | Ok currCommand => runCommand k p currCommand fStatus
        end
    end.

(** The shell as [main] has set it up before the first prompt: nothing
    written yet, SIGINT ignored, SIGTSTP bound to [handle_SIGTSTP]. *)
Definition initial_process (dir : cstr) : process :=
  {| foregroundMode := false; stdout := []; stderr := [];
     cwd := dir; sigint := SIG_IGN; sigtstp := SIG_HANDLER;
     fd0 := None; fd1 := None |}.

(** A system for the examples: the only directories are HOME and the
    root, every file opens, every program is found, an awaited child
    ends with [status], and [fork] answers [fork_ret]. *)
Definition example_kernel (fork_ret : Z) (status : Z) : kernel :=
  {| getenv_HOME := Some (lit "/home/user");
     chdir_to := fun _ path =>
       match path with
       | Some d =>
           if streq d (lit "/home/user") || streq d (lit "/")
           then Some d else None
       | None => None
       end;
     fork_returns := fork_ret;
     fork_errtext := lit "Resource temporarily unavailable";
     waitpid_status := Some status;
     open_rdonly := fun _ => true;
     open_trunc := fun _ => true;
     dup2_errtext := fun _ => None;
     execvp_succeeds := fun _ _ => true |}.

Definition example_shell : process := initial_process (lit "/").
Definition example_linux : kernel := example_kernel 1234 0.

(** The system as a forked child meets it in the examples: [fork] has
    returned 0, the file "missing.txt" does not open for reading, the
    file "/proc/denied" does not open for writing, and there is no
    program "frobnicate". *)
Definition example_child_kernel : kernel :=
  {| getenv_HOME := Some (lit "/home/user");
     chdir_to := fun _ _ => None;
     fork_returns := 0;
     fork_errtext := [];
     waitpid_status := None;
     open_rdonly := fun f => negb (streq f (lit "missing.txt"));
     open_trunc := fun f => negb (streq f (lit "/proc/denied"));
     dup2_errtext := fun _ => None;
     execvp_succeeds := fun name _ => negb (streq name (lit "frobnicate")) |}.

(** The command a line of plain words parses to. *)
Definition words (line : string) : command :=
  match processCommand false zero_block (lit line) with
  | Ok c => c
  | Fault _ => zero_block
  end.

(** The loop [for (index=0; arguments[index]; index++)] at the end of a
    turn of [main]: the slots before the first NULL are set to NULL. *)
Fixpoint clear_arguments (slots : list (option cstr)) : list (option cstr) :=
  match slots with
  | Some _ :: slots' => None :: clear_arguments slots'
  | _ => slots
  end.

(** The end of a turn of [main], from [free(currCommand->inputFile)] to
    [free(currCommand)]: the content of the block handed back to the
    allocator.  With no NULL in the array the loop reads
    [arguments[512]], past its end. *)
Definition main_cleanup (currCommand : command) : result command :=
  if (length (argv (arguments currCommand))
        <? length (arguments currCommand))%nat
  then Ok {| arguments := clear_arguments (arguments currCommand);
             inputFile := None;
             outputFile := None;
             backgroundRun := backgroundRun currCommand |}
  else Fault OutOfBounds.

(** The line [checkBackgroundProcesses] writes for one child. *)
Definition background_report {W : WaitStatus} (bPid bStatus : Z) : cstr :=
  lit "background pid " ++ dec bPid ++ lit " is done: "
  ++ (if WIFEXITED bStatus then
        lit "exit value " ++ dec (WEXITSTATUS bStatus) ++ newline
      else if WIFSIGNALED bStatus then
        lit "terminated by signal " ++ dec (WTERMSIG bStatus) ++ newline
      else []).

(** The process a call ends with, where it ends with one. *)
Definition final_process (o : outcome) : option process :=
  match o with
  | Returns _ p | Exits _ p | Execs _ _ p => Some p
  | Undefined _ => None
  end.

(** The encoding of wait statuses on Linux (glibc's <bits/waitstatus.h>). *)
Module Linux.

Definition signed_char (z : Z) : Z :=
  let b := z mod 256 in if b <? 128 then b else b - 256.

Definition wtermsig (s : Z) : Z := Z.land s 127.
Definition wifexited (s : Z) : bool := wtermsig s =? 0.
Definition wexitstatus (s : Z) : Z := Z.shiftr (Z.land s 65280) 8.
Definition wifsignaled (s : Z) : bool :=
  0 <? Z.shiftr (signed_char (Z.land s 127 + 1)) 1.

Definition wait_status : WaitStatus :=
  {| WIFEXITED := wifexited; WEXITSTATUS := wexitstatus;
     WIFSIGNALED := wifsignaled; WTERMSIG := wtermsig |}.

End Linux.

End Shell.
(* ================================================================== *)
(** ** Facts about the string routines                                 *)
(* ================================================================== *)

Section StringFacts.

Local Open Scope nat_scope.

(** Induction over a string two characters at a time, as a scan for a
    two-character marker proceeds. *)
Lemma cstr_pair_ind (P : cstr -> Prop) :
  P [] ->
  (forall c, P [c]) ->
  (forall a b s, P s -> P (b :: s) -> P (a :: b :: s)) ->
  forall s, P s.
Proof.
  intros Hnil Hone Hstep s.
  assert (H : P s /\ forall c, P (c :: s)).
  { induction s as [|b s [IH1 IH2]]; split; auto. }
  apply H.
Qed.

Lemma ascii_eqb_eq (a b : ascii) : ascii_eqb a b = true <-> a = b.
Proof. apply Ascii.eqb_eq. Qed.

Lemma ascii_eqb_refl (a : ascii) : ascii_eqb a a = true.
Proof. apply Ascii.eqb_refl. Qed.

Lemma streq_eq (a b : cstr) : streq a b = true <-> a = b.
Proof.
  revert b; induction a as [|x a IH]; intros [|y b]; simpl; split;
    try congruence; try discriminate.
  - intros H. apply andb_true_iff in H as [H1 H2].
    apply ascii_eqb_eq in H1. apply IH in H2. congruence.
  - intros [= -> ->]. rewrite ascii_eqb_refl. simpl. now apply IH.
Qed.

Lemma starts_with_app (p s : cstr) : starts_with p (p ++ s) = true.
Proof.
  induction p as [|c p IH]; simpl; auto.
  now rewrite ascii_eqb_refl.
Qed.

Lemma starts_with_spec (p s : cstr) :
  starts_with p s = true <-> exists r, s = p ++ r.
Proof.
  split.
  - revert s; induction p as [|c p IH]; intros s H.
    + now exists s.
    + destruct s as [|d s]; simpl in H; [discriminate|].
      apply andb_true_iff in H as [H1 H2].
      apply ascii_eqb_eq in H1; subst d.
      destruct (IH _ H2) as [r ->]. now exists r.
  - intros [r ->]. apply starts_with_app.
Qed.

(** [strstr] answers with an offset at which the needle stands, and with
    the first such offset. *)
Lemma strstr_Some (hay needle : cstr) (k : nat) :
  strstr hay needle = Some k ->
  starts_with needle (drop k hay) = true /\
  k + length needle <= length hay /\
  forall j, j < k -> starts_with needle (drop j hay) = false.
Proof.
  revert k; induction hay as [|c hay IH]; intros k; simpl.
  - destruct needle; simpl; [|discriminate].
    intros [= <-]. repeat split; auto. lia.
  - destruct (starts_with needle (c :: hay)) eqn:E.
    + intros [= <-]. simpl. rewrite E. split; [reflexivity|].
      split; [|lia].
      apply starts_with_spec in E as [r E].
      apply (f_equal (@length _)) in E. rewrite length_app in E.
      simpl in E. lia.
    + destruct (strstr hay needle) as [k'|] eqn:E'; simpl; [|discriminate].
      intros [= <-]. destruct (IH k' eq_refl) as (H1 & H2 & H3).
      simpl. split; [exact H1|]. split; [lia|].
      intros [|j] Hj; simpl; [exact E|]. apply H3. lia.
Qed.

Lemma strstr_None (hay needle : cstr) :
  strstr hay needle = None <->
  forall j, starts_with needle (drop j hay) = false.
Proof.
  induction hay as [|c hay IH]; simpl.
  - destruct needle; simpl; split; try congruence.
    + intros H. specialize (H 0). discriminate.
    + intros _ j. now rewrite drop_nil.
  - destruct (starts_with needle (c :: hay)) eqn:E.
    + split; [discriminate|]. intros H. specialize (H 0). simpl in H.
      congruence.
    + destruct (strstr hay needle) eqn:E'; simpl.
      * split; [discriminate|]. intros H.
        enough (Some n = None) by discriminate.
        apply IH. intros j. apply (H (S j)).
      * split; [|reflexivity]. intros _ [|j]; simpl; [exact E|].
        now apply IH.
Qed.

End StringFacts.

(* ================================================================== *)
(** ** The decimal text of an integer                                  *)
(* ================================================================== *)

Section DecFacts.

Local Open Scope nat_scope.


Lemma string_of_uint_dec (d : Decimal.uint) :
  dec_chars (list_ascii_of_string (NilEmpty.string_of_uint d)).
Proof.
  induction d; simpl; constructor; auto.
Qed.

Lemma string_of_uint_nonempty (d : Decimal.uint) :
  list_ascii_of_string (NilZero.string_of_uint d) <> [].
Proof. destruct d; simpl; discriminate. Qed.

Lemma dec_dec_chars (z : Z) : dec_chars (dec z).
Proof.
  unfold dec, NilZero.string_of_int.
  assert (H : forall d, dec_chars
                (list_ascii_of_string (NilZero.string_of_uint d))).
  { intros d. destruct d; try apply (string_of_uint_dec (_ d)).
    simpl. repeat constructor. }
  destruct (Z.to_int z); simpl; [apply H|].
  constructor; [reflexivity|apply H].
Qed.

Lemma dec_nonempty (z : Z) : dec z <> [].
Proof.
  unfold dec, NilZero.string_of_int.
  destruct (Z.to_int z); simpl; [apply string_of_uint_nonempty|discriminate].
Qed.

End DecFacts.

(* ================================================================== *)
(** ** variableExpansion                                               *)
(* ================================================================== *)

Section ExpanderFacts.
Import Expander.

Local Open Scope nat_scope.

Variable text : cstr.

(** The marker at the head of a string of two or more characters. *)
Lemma starts_with_marker (a b : ascii) (s : cstr) :
  starts_with marker (a :: b :: s) = ascii_eqb "$" a && ascii_eqb "$" b.
Proof. simpl. now rewrite andb_true_r. Qed.

Lemma strstr_marker_cons2 (a b : ascii) (s : cstr) :
  strstr (a :: b :: s) marker =
  if ascii_eqb "$" a && ascii_eqb "$" b then Some 0
  else option_map S (strstr (b :: s) marker).
Proof.
  change (strstr (a :: b :: s) marker)
    with (if starts_with marker (a :: b :: s) then Some 0
          else option_map S (strstr (b :: s) marker)).
  now rewrite starts_with_marker.
Qed.

Lemma strstr_marker_one (c : ascii) : strstr [c] marker = None.
Proof. simpl. now rewrite andb_false_r. Qed.

(** One round of the loop of [variableExpansion], seen from
    [replace_markers]: the text before the first marker is copied, the
    marker is replaced, and the scan resumes behind it. *)
Lemma replace_markers_strstr (s : cstr) :
  match strstr s marker with
  | None => replace_markers text s = s
  | Some k =>
      replace_markers text s =
      take k s ++ text ++ replace_markers text (drop (k + 2) s)
  end.
Proof.
  induction s as [| c | a b s IH1 IH2] using cstr_pair_ind.
  - reflexivity.
  - now rewrite strstr_marker_one.
  - rewrite strstr_marker_cons2.
    change (replace_markers text (a :: b :: s))
      with (if ascii_eqb "$" a && ascii_eqb "$" b
            then text ++ replace_markers text s
            else a :: replace_markers text (b :: s)).
    destruct (ascii_eqb "$" a && ascii_eqb "$" b); [reflexivity|].
    destruct (strstr (b :: s) marker) as [k|]; simpl option_map; cbv iota.
    + rewrite IH2. reflexivity.
    + now rewrite IH2.
Qed.

(** The loop computes [replace_markers] behind what it has written, and
    faults exactly when the text does not fit the buffer with its NUL. *)
Lemma expansion_loop_spec (fuel : nat) (pString newString : cstr) :
  length pString < fuel ->
  expansion_loop fuel marker text pString newString =
  if length newString + length (replace_markers text pString) + 1
       <=? NEWSTRING_SIZE
  then Ok (newString ++ replace_markers text pString)
  else Fault OutOfBounds.
Proof.
  revert pString newString.
  induction fuel as [|fuel IH]; intros pString newString Hfuel; [lia|].
  simpl expansion_loop.
  pose proof (replace_markers_strstr pString) as Hr.
  destruct (strstr pString marker) as [k|] eqn:Hs.
  - apply strstr_Some in Hs as (_ & Hlen & _).
    change (length marker) with 2 in *.
    rewrite Hr, !length_app, length_take.
    replace (k `min` length pString) with k by lia.
    destruct (length newString + k + length text <=? NEWSTRING_SIZE) eqn:Hfit.
    + rewrite IH by (rewrite length_drop; lia).
      rewrite !length_app, length_take.
      replace (k `min` length pString) with k by lia.
      rewrite <- !Nat.add_assoc. rewrite <- !app_assoc. reflexivity.
    + apply Nat.leb_gt in Hfit.
      destruct (_ <=? NEWSTRING_SIZE) eqn:Hfit'; [|reflexivity].
      apply Nat.leb_le in Hfit'. lia.
  - now rewrite Hr.
Qed.

Lemma strstr_marker_cons_ne (c : ascii) (u : cstr) :
  ascii_eqb "$" c = false ->
  strstr (c :: u) marker = option_map S (strstr u marker).
Proof.
  intros Hc. destruct u as [|b u].
  - now rewrite strstr_marker_one.
  - now rewrite strstr_marker_cons2, Hc.
Qed.

Lemma replace_markers_cons_ne (b : ascii) (s : cstr) :
  ascii_eqb "$" b = false ->
  replace_markers text (b :: s) = b :: replace_markers text s.
Proof. intros Hb. destruct s as [|c s]; simpl; now rewrite ?Hb. Qed.

Lemma is_dec_char_dollar (c : ascii) :
  is_dec_char c = true -> ascii_eqb "$" c = false.
Proof.
  intros H. destruct (ascii_eqb "$" c) eqn:E; [|reflexivity].
  apply ascii_eqb_eq in E. subst c. discriminate.
Qed.

Lemma strstr_marker_dec_app (t u : cstr) :
  dec_chars t -> strstr u marker = None -> strstr (t ++ u) marker = None.
Proof.
  intros Ht Hu. induction Ht as [|c t Hc _ IH]; [exact Hu|].
  simpl app. rewrite strstr_marker_cons_ne by now apply is_dec_char_dollar.
  now rewrite IH.
Qed.

(** No marker is left in the expanded text. *)
Lemma replace_markers_no_marker (s : cstr) :
  dec_chars text -> strstr (replace_markers text s) marker = None.
Proof.
  intros Ht.
  induction s as [| c | a b s IH1 IH2] using cstr_pair_ind.
  - reflexivity.
  - apply strstr_marker_one.
  - change (replace_markers text (a :: b :: s))
      with (if ascii_eqb "$" a && ascii_eqb "$" b
            then text ++ replace_markers text s
            else a :: replace_markers text (b :: s)).
    destruct (ascii_eqb "$" a) eqn:Ha; simpl andb; cbv iota.
    + destruct (ascii_eqb "$" b) eqn:Hb.
      * now apply strstr_marker_dec_app.
      * rewrite replace_markers_cons_ne in * by assumption.
        rewrite strstr_marker_cons2, Hb, andb_false_r.
        now rewrite IH2.
    + rewrite strstr_marker_cons_ne by assumption. now rewrite IH2.
Qed.

Lemma occurrences_from_none (needle s : cstr) (k : nat) :
  (forall j, starts_with needle (drop j s) = false) ->
  occurrences_from k needle s = 0.
Proof.
  revert k; induction s as [|c s IH]; intros k H; [reflexivity|].
  assert (Hs : forall j, starts_with needle (drop j s) = false)
    by (intros j; apply (H (S j))).
  simpl. destruct k; [|now apply IH].
  specialize (H 0) as H0. simpl in H0. rewrite H0. now apply IH.
Qed.

Lemma occurrences_from_skip (needle u s : cstr) :
  occurrences_from (length u) needle (u ++ s) = occurrences_from 0 needle s.
Proof. induction u as [|c u IH]; [reflexivity|exact IH]. Qed.

Lemma occurrences_marker_cons2 (a b : ascii) (s : cstr) :
  occurrences marker (a :: b :: s) =
  if ascii_eqb "$" a && ascii_eqb "$" b then S (occurrences marker s)
  else occurrences marker (b :: s).
Proof.
  unfold occurrences.
  change (occurrences_from 0 marker (a :: b :: s))
    with (if starts_with marker (a :: b :: s)
          then S (occurrences_from 1 marker (b :: s))
          else occurrences_from 0 marker (b :: s)).
  now rewrite starts_with_marker.
Qed.

Lemma occurrences_marker_one (c : ascii) : occurrences marker [c] = 0.
Proof. unfold occurrences. simpl. now rewrite andb_false_r. Qed.

(** Each marker counted in the line makes the text longer by the length
    of the replacement and shorter by the two characters of the marker. *)
Lemma replace_markers_length (s : cstr) :
  length (replace_markers text s) + 2 * occurrences marker s =
  length s + occurrences marker s * length text.
Proof.
  induction s as [| c | a b s IH1 IH2] using cstr_pair_ind.
  - reflexivity.
  - now rewrite occurrences_marker_one.
  - rewrite occurrences_marker_cons2.
    change (replace_markers text (a :: b :: s))
      with (if ascii_eqb "$" a && ascii_eqb "$" b
            then text ++ replace_markers text s
            else a :: replace_markers text (b :: s)).
    destruct (ascii_eqb "$" a && ascii_eqb "$" b).
    + rewrite length_app. simpl length. lia.
    + simpl length in *. lia.
Qed.

Lemma starts_with_head_ne (c a : ascii) (t u : cstr) :
  ascii_eqb c a = false -> starts_with (c :: t) (a :: u) = false.
Proof. intros H. simpl. now rewrite H. Qed.

Lemma dec_char_mismatch (c a : ascii) :
  is_dec_char c = true -> is_dec_char a = false -> ascii_eqb c a = false.
Proof.
  intros Hc Ha. destruct (ascii_eqb c a) eqn:E; [|reflexivity].
  apply ascii_eqb_eq in E. congruence.
Qed.

(** In a line without digits or minus signs the replacement text occurs
    in the result where a marker stood, and nowhere else. *)
Lemma replace_markers_occurrences (s : cstr) :
  dec_chars text -> text <> [] -> no_dec_chars s ->
  occurrences text (replace_markers text s) = occurrences marker s.
Proof.
  intros Ht Hne. destruct text as [|c t] eqn:Etext; [congruence|].
  assert (Hc : is_dec_char c = true) by now inversion Ht.
  induction s as [| a | a b s IH1 IH2] using cstr_pair_ind; intros Hs.
  - reflexivity.
  - rewrite occurrences_marker_one. unfold occurrences. simpl.
    inversion Hs; subst. now rewrite (dec_char_mismatch c a).
  - rewrite occurrences_marker_cons2.
    change (replace_markers (c :: t) (a :: b :: s))
      with (if ascii_eqb "$" a && ascii_eqb "$" b
            then (c :: t) ++ replace_markers (c :: t) s
            else a :: replace_markers (c :: t) (b :: s)).
    assert (Hs1 : no_dec_chars (b :: s)) by now inversion Hs.
    assert (Hs2 : no_dec_chars s) by now inversion Hs1.
    assert (Ha : is_dec_char a = false) by now inversion Hs.
    destruct (ascii_eqb "$" a && ascii_eqb "$" b).
    + rewrite <- IH1 by assumption. unfold occurrences.
      change (occurrences_from 0 (c :: t)
                ((c :: t) ++ replace_markers (c :: t) s))
        with (if starts_with (c :: t)
                   ((c :: t) ++ replace_markers (c :: t) s)
              then S (occurrences_from (length t) (c :: t)
                        (t ++ replace_markers (c :: t) s))
              else occurrences_from 0 (c :: t)
                     (t ++ replace_markers (c :: t) s)).
      now rewrite starts_with_app, occurrences_from_skip.
    + rewrite <- IH2 by assumption. unfold occurrences.
      change (occurrences_from 0 (c :: t)
                (a :: replace_markers (c :: t) (b :: s)))
        with (if starts_with (c :: t) (a :: replace_markers (c :: t) (b :: s))
              then S (occurrences_from (length t) (c :: t)
                        (replace_markers (c :: t) (b :: s)))
              else occurrences_from 0 (c :: t)
                     (replace_markers (c :: t) (b :: s))).
      now rewrite starts_with_head_ne by now apply dec_char_mismatch.
Qed.

End ExpanderFacts.

(** [variableExpansion] with the marker of [main]: the line with its
    markers replaced, or a fault when that text and its NUL do not fit
    [newString]. *)
Lemma variableExpansion_spec (line : cstr) (pid : Z) :
  Expander.variableExpansion line Expander.marker pid =
  if (length (Expander.replace_markers (dec pid) line)
        <? Expander.NEWSTRING_SIZE)%nat
  then Ok (Expander.replace_markers (dec pid) line)
  else Fault OutOfBounds.
Proof.
  unfold Expander.variableExpansion.
  rewrite expansion_loop_spec by lia. simpl length.
  rewrite Nat.add_0_l, Nat.add_1_r.
  reflexivity.
Qed.

(** C1 (as amended).  For every line and process id whose expanded text
    fits the 2048-byte buffer, [variableExpansion] returns the line with
    each marker found by one left-to-right scan replaced by the decimal
    text of the pid and every other character copied in order
    ([replace_markers]; text written by a replacement is never read
    again).  No marker is left in the result, the result is longer by
    the pid text and shorter by the two marker characters for each of the
    N markers of the line, and it holds exactly N occurrences of the pid
    text when the line itself has no digit and no minus sign. *)
Theorem variableExpansion_replaces_markers (line : cstr) (pid : Z) :
  (length (Expander.replace_markers (dec pid) line)
     < Expander.NEWSTRING_SIZE)%nat ->
  exists r : cstr,
    Expander.variableExpansion line Expander.marker pid = Ok r /\
    r = Expander.replace_markers (dec pid) line /\
    strstr r Expander.marker = None /\
    occurrences Expander.marker r = 0%nat /\
    (length r + 2 * occurrences Expander.marker line =
     length line + occurrences Expander.marker line * length (dec pid))%nat /\
    (no_dec_chars line ->
     occurrences (dec pid) r = occurrences Expander.marker line).
Proof.
  intros Hfit. exists (Expander.replace_markers (dec pid) line).
  rewrite variableExpansion_spec.
  apply Nat.ltb_lt in Hfit. rewrite Hfit.
  pose proof (replace_markers_no_marker (dec pid) line (dec_dec_chars pid))
    as Hnone.
  repeat split.
  - exact Hnone.
  - apply occurrences_from_none. now apply strstr_None.
  - apply replace_markers_length.
  - intros Hline. apply replace_markers_occurrences; auto.
    + apply dec_dec_chars.
    + apply dec_nonempty.
Qed.

Lemma variableExpansion_replaces_markers_witness :
  exists r : cstr,
    Expander.variableExpansion (lit "echo $$ a$$$b") Expander.marker 4711
      = Ok r /\
    r = lit "echo 4711 a4711$b".
Proof.
  destruct (variableExpansion_replaces_markers (lit "echo $$ a$$$b") 4711)
    as (r & Hr & Heq & _).
  - apply Nat.ltb_lt. vm_compute. reflexivity.
  - exists r. split; [exact Hr|]. rewrite Heq. vm_compute. reflexivity.
Defined.

(** C1, as the claim words it, fails when the line itself holds the pid
    text: "7$$" has one marker, and with pid 7 the result "77" holds the
    pid text twice.  It also fails for a line whose expansion outgrows
    the buffer: 700 markers are a line of 1400 characters, and with the
    pid 4711 the copy runs past the end of [newString]. *)
Lemma variableExpansion_pid_text_count_counterexample :
  (Expander.variableExpansion (lit "7$$") Expander.marker 7 = Ok (lit "77") /\
   occurrences Expander.marker (lit "7$$") = 1%nat /\
   occurrences (dec 7) (lit "77") = 2%nat) /\
  Expander.variableExpansion
    (concat (replicate 700 Expander.marker)) Expander.marker 4711
  = Fault OutOfBounds.
Proof. vm_compute. repeat split. Qed.

(* ================================================================== *)
(** ** strtok_r and the token list                                     *)
(* ================================================================== *)

Section TokenFacts.
Import Parser.

Local Open Scope nat_scope.

Variable delim : cstr.

Lemma skip_delims_tokens (s : cstr) :
  tokens_acc delim [] (skip_delims delim s) = tokens_acc delim [] s.
Proof.
  induction s as [|c s IH]; [reflexivity|]. simpl.
  destruct (is_delim delim c) eqn:E; [exact IH|].
  simpl. now rewrite E.
Qed.

Lemma skip_delims_head (s r : cstr) (c : ascii) :
  skip_delims delim s = c :: r -> is_delim delim c = false.
Proof.
  induction s as [|d s IH]; simpl; [discriminate|].
  destruct (is_delim delim d) eqn:E; [exact IH|].
  now intros [= <- _].
Qed.

Lemma skip_delims_length (s : cstr) :
  length (skip_delims delim s) <= length s.
Proof.
  induction s as [|c s IH]; simpl; [lia|].
  destruct (is_delim delim c); simpl; lia.
Qed.

Lemma span_token_length (s : cstr) :
  length (span_token delim s).2 <= pred (length s).
Proof.
  induction s as [|c s IH]; simpl; [lia|].
  destruct (is_delim delim c); simpl; [lia|].
  destruct (span_token delim s) as [tok rest]; simpl in *. lia.
Qed.

(** A token under way is closed by the next delimiter. *)
Lemma span_token_tokens (s cur : cstr) :
  cur <> [] ->
  tokens_acc delim cur s =
  (cur ++ (span_token delim s).1)
    :: tokens_acc delim [] (span_token delim s).2.
Proof.
  revert cur; induction s as [|c s IH]; intros cur Hcur; simpl.
  - rewrite app_nil_r. now destruct cur.
  - destruct (is_delim delim c) eqn:E; simpl.
    + rewrite app_nil_r. now destruct cur.
    + rewrite IH by now destruct cur.
      destruct (span_token delim s) as [tok rest]; simpl.
      now rewrite <- app_assoc.
Qed.

(** What one call of [strtok_r] hands out, in terms of the token list. *)
Lemma strtok_r_tokens (s : cstr) :
  match strtok_r s delim with
  | (None, rest) => tokens_acc delim [] s = [] /\ rest = []
  | (Some tok, rest) =>
      tokens_acc delim [] s = tok :: tokens_acc delim [] rest /\
      length rest < length s
  end.
Proof.
  unfold strtok_r. rewrite <- (skip_delims_tokens s).
  pose proof (skip_delims_length s) as Hlen.
  destruct (skip_delims delim s) as [|c r] eqn:E; [now split|].
  pose proof (skip_delims_head _ _ _ E) as Hc.
  pose proof (span_token_length (c :: r)) as Hspan.
  pose proof (span_token_tokens r [c]) as Htok.
  simpl in *. rewrite Hc in *.
  destruct (span_token delim r) as [tok rest]; simpl in *.
  split; [now apply Htok|lia].
Qed.

End TokenFacts.

(* ================================================================== *)
(** ** processCommand                                                  *)
(* ================================================================== *)

Section ParserFacts.
Import Parser.

Local Open Scope nat_scope.

(** The loop of [processCommand] is [scan_tokens] over the tokens that
    are left, whenever the fuel covers the text that is left. *)
Lemma token_loop_scan (fuel : nat) (token : option cstr) (saveptr1 : cstr)
    (i : nat) (c : command) :
  (is_Some token -> length saveptr1 < fuel) ->
  token_loop fuel token saveptr1 i c =
  scan_tokens
    (match token with
     | Some tok => tok :: tokens saveptr1
     | None => []
     end) i c.
Proof.
  revert token saveptr1 i c.
  induction fuel as [|fuel IH]; intros token saveptr1 i c Hfuel.
  - destruct token as [tok|]; [|reflexivity].
    specialize (Hfuel (ltac:(eauto))). lia.
  - destruct token as [tok|]; [|reflexivity].
    specialize (Hfuel (ltac:(eauto))).
    assert (Hnext : forall s j c',
      length s <= fuel ->
      (let (token1, saveptr2) := strtok_r s (lit " ") in
       token_loop fuel token1 saveptr2 j c') = scan_tokens (tokens s) j c').
    { intros s j c' Hs. pose proof (strtok_r_tokens (lit " ") s) as H.
      destruct (strtok_r s (lit " ")) as [[t|] r].
      - destruct H as [H1 H2]. unfold tokens. rewrite H1.
        apply IH. intros _. lia.
      - destruct H as [H1 _]. unfold tokens. rewrite H1.
        now destruct fuel. }
    assert (Hfile : forall s j (set : cstr -> command -> command),
      length s <= fuel ->
      (let (token1, saveptr2) := strtok_r s (lit " ") in
       file ← deref token1;
       let (token2, saveptr3) := strtok_r saveptr2 (lit " ") in
       token_loop fuel token2 saveptr3 j (set file c)) =
      match tokens s with
      | [] => Fault NullDereference
      | file :: rest' => scan_tokens rest' j (set file c)
      end).
    { intros s j set Hs. pose proof (strtok_r_tokens (lit " ") s) as H.
      destruct (strtok_r s (lit " ")) as [[t|] r].
      - destruct H as [H1 H2]. unfold tokens at 1. rewrite H1.
        change (deref (Some t)) with (Ok t). simpl mbind.
        unfold mbind, result_bind. apply Hnext. lia.
      - destruct H as [H1 _]. unfold tokens. now rewrite H1. }
    simpl token_loop. simpl scan_tokens.
    destruct (streq tok (lit "<")).
    { apply (Hfile saveptr1 (S i) set_inputFile). lia. }
    destruct (streq tok (lit ">")).
    { apply (Hfile saveptr1 (S i) set_outputFile). lia. }
    destruct (i <? ARGUMENTS_SIZE); [|reflexivity].
    apply Hnext. lia.
Qed.


(** [processCommand] in terms of the token list: the background test on
    the last character, the first token, the scan of the others, the
    default files. *)
Lemma processCommand_tokens (fm : bool) (block : command) (line : cstr) :
  processCommand fm block line =
  match last line with
  | None => Fault OutOfBounds
  | Some lastc =>
      let background := ascii_eqb lastc "&"%char in
      match tokens (if background
                    then take (length line - 1) line else line) with
      | [] => Fault NullDereference
      | first :: rest =>
          c ← scan_tokens rest 1 (initial_command block background first);
          Ok (default_files fm c)
      end
  end.
Proof.
  unfold processCommand.
  destruct (last line) as [lastc|]; [|reflexivity].
  change (Ok lastc ≫= ?k) with (k lastc). cbv beta zeta.
  set (text := if ascii_eqb lastc "&" then _ else _).
  pose proof (strtok_r_tokens (lit " ") text) as H.
  destruct (strtok_r text (lit " ")) as [[first|] saveptr1].
  - destruct H as [H _]. unfold tokens at 1. rewrite H.
    change (deref (Some first) ≫= ?k) with (k first). cbv beta.
    pose proof (strtok_r_tokens (lit " ") saveptr1) as H'.
    destruct (strtok_r saveptr1 (lit " ")) as [token saveptr2] eqn:E.
    rewrite token_loop_scan by (intros _; lia).
    fold (initial_command block (ascii_eqb lastc "&") first).
    destruct token as [tok|]; destruct H' as [H' _]; now rewrite H'.
  - destruct H as [H _]. unfold tokens. now rewrite H.
Qed.

(** Induction over a token list the way the loop walks it: an operator
    takes the token behind it along. *)
Lemma token_list_ind (P : list cstr -> Prop) :
  P [] ->
  (forall tok, is_operator tok = true -> P [tok]) ->
  (forall tok file rest,
     is_operator tok = true -> P rest -> P (tok :: file :: rest)) ->
  (forall tok rest, is_operator tok = false -> P rest -> P (tok :: rest)) ->
  forall toks, P toks.
Proof.
  intros Hnil Hop Hredir Hplain toks.
  assert (H : P toks /\ forall tok, P (tok :: toks)).
  { induction toks as [|file rest [IH1 IH2]]; split; auto.
    - intros tok. destruct (is_operator tok) eqn:E; auto.
    - intros tok. destruct (is_operator tok) eqn:E; auto. }
  apply H.
Qed.

Lemma is_operator_cases (tok : cstr) :
  is_operator tok = true -> tok = lit "<" \/ tok = lit ">".
Proof.
  unfold is_operator. intros H. apply orb_true_iff in H as [H|H];
    apply streq_eq in H; auto.
Qed.

Lemma is_operator_false (tok : cstr) :
  is_operator tok = false ->
  streq tok (lit "<") = false /\ streq tok (lit ">") = false.
Proof. unfold is_operator. intros H. now apply orb_false_iff in H. Qed.

(** The loop never touches [backgroundRun], and leaves in each file
    pointer the operand of the last operator of its kind. *)
Lemma scan_tokens_files (toks : list cstr) :
  forall (i : nat) (c c' : command),
  scan_tokens toks i c = Ok c' ->
  backgroundRun c' = backgroundRun c /\
  inputFile c' = match redirection (lit "<") toks with
                 | Some f => Some f
                 | None => inputFile c
                 end /\
  outputFile c' = match redirection (lit ">") toks with
                  | Some f => Some f
                  | None => outputFile c
                  end.
Proof.
  induction toks as [| tok Hop | tok file rest Hop IH | tok rest Hop IH]
    using token_list_ind; intros i c c' Hscan.
  - injection Hscan as <-. auto.
  - apply is_operator_cases in Hop as [-> | ->]; discriminate.
  - simpl redirection. rewrite Hop.
    apply is_operator_cases in Hop as [-> | ->]; simpl in Hscan;
      apply IH in Hscan as (Hb & Hi & Ho); rewrite Hb, Hi, Ho; simpl;
      repeat split;
      try (now destruct (redirection (lit "<") rest));
      try (now destruct (redirection (lit ">") rest)).
  - simpl redirection. rewrite Hop.
    apply is_operator_false in Hop as [H1 H2].
    simpl in Hscan. rewrite H1, H2 in Hscan.
    destruct (i <? ARGUMENTS_SIZE); [|discriminate].
    now apply IH in Hscan.
Qed.

(** An operand stands behind its operator in the token list. *)
Lemma redirection_Some (op : cstr) (toks : list cstr) (f : cstr) :
  redirection op toks = Some f ->
  exists pre post, toks = pre ++ op :: f :: post.
Proof.
  revert f.
  induction toks as [| tok Hop | tok file rest Hop IH | tok rest Hop IH]
    using token_list_ind; intros f; simpl; rewrite ?Hop; try discriminate.
  - destruct (redirection op rest) as [g|] eqn:E.
    + intros [= <-]. destruct (IH g eq_refl) as (pre & post & ->).
      now exists (tok :: file :: pre), post.
    + destruct (streq tok op) eqn:Eop; [|discriminate].
      intros [= <-]. apply streq_eq in Eop as <-.
      now exists [], rest.
  - intros H. destruct (IH f H) as (pre & post & ->).
    now exists (tok :: pre), post.
Qed.

(** A character that is no delimiter, added at the end of a line, only
    touches the last token. *)
Lemma tokens_acc_snoc (delim : cstr) (c : ascii) (s : cstr) :
  is_delim delim c = false ->
  forall cur pre x y post,
  tokens_acc delim cur s = pre ++ x :: y :: post ->
  exists post', tokens_acc delim cur (s ++ [c]) = pre ++ x :: post'.
Proof.
  intros Hc. induction s as [|a s IH]; intros cur pre x y post; simpl.
  - destruct cur; destruct pre as [|? [|? ?]]; discriminate.
  - destruct (is_delim delim a); [|apply IH].
    destruct cur as [|c0 cur]; [apply IH|].
    destruct pre as [|p pre]; simpl.
    + intros [= <- H]. eauto.
    + intros [= <- H]. destruct (IH _ _ _ _ _ H) as [post' ->]. eauto.
Qed.

Lemma last_snoc_take (line : cstr) (c : ascii) :
  last line = Some c -> take (length line - 1) line ++ [c] = line.
Proof.
  intros H. destruct (last_Some line c) as [Hl _].
  destruct (Hl H) as [l' ->].
  rewrite length_app. simpl length.
  replace (length l' + 1 - 1) with (length l') by lia.
  now rewrite take_app_length.
Qed.

End ParserFacts.

Section ParserClaims.
Import Parser.

Local Open Scope nat_scope.

Lemma default_files_backgroundRun (fm : bool) (c : command) :
  backgroundRun (default_files fm c) = backgroundRun c.
Proof.
  destruct c as [a i o b]. unfold default_files. simpl.
  destruct b, fm, i, o; reflexivity.
Qed.

Lemma default_files_arguments (fm : bool) (c : command) :
  arguments (default_files fm c) = arguments c.
Proof.
  destruct c as [a i o b]. unfold default_files. simpl.
  destruct b, fm, i, o; reflexivity.
Qed.

(** The loop writes no argument slot below its index. *)
Lemma scan_tokens_slots (toks : list cstr) :
  forall (i : nat) (c c' : command),
  scan_tokens toks i c = Ok c' ->
  length (arguments c') = length (arguments c) /\
  forall j, j < i -> arguments c' !! j = arguments c !! j.
Proof.
  induction toks as [| tok Hop | tok file rest Hop IH | tok rest Hop IH]
    using token_list_ind; intros i c c' Hscan.
  - injection Hscan as <-. auto.
  - apply is_operator_cases in Hop as [-> | ->]; discriminate.
  - apply is_operator_cases in Hop as [-> | ->]; simpl in Hscan;
      apply IH in Hscan as [Hlen Hslot]; simpl in *;
      (split; [exact Hlen|]); intros j Hj; apply Hslot; lia.
  - apply is_operator_false in Hop as [H1 H2].
    simpl in Hscan. rewrite H1, H2 in Hscan.
    destruct (i <? ARGUMENTS_SIZE); [|discriminate].
    apply IH in Hscan as [Hlen Hslot]. simpl in *.
    rewrite length_insert in Hlen. split; [exact Hlen|].
    intros j Hj. rewrite Hslot by lia.
    apply list_lookup_insert_ne. lia.
Qed.

(** What [processCommand] returns, field by field, when it returns. *)
Lemma processCommand_Ok (fm : bool) (block : command) (line : cstr)
    (c : command) :
  processCommand fm block line = Ok c ->
  exists lastc first rest c0,
    last line = Some lastc /\
    backgroundRun c = ascii_eqb lastc "&"%char /\
    tokens (if backgroundRun c
            then take (length line - 1) line else line) = first :: rest /\
    scan_tokens rest 1 (initial_command block (backgroundRun c) first)
      = Ok c0 /\
    backgroundRun c0 = backgroundRun c /\
    c = default_files fm c0.
Proof.
  rewrite processCommand_tokens.
  destruct (last line) as [lastc|]; [|discriminate].
  cbv zeta.
  destruct (tokens _) as [|first rest] eqn:Etok; [discriminate|].
  destruct (scan_tokens rest 1 _) as [c0|] eqn:Escan; [|discriminate].
  intros [= <-].
  pose proof (scan_tokens_files _ _ _ _ Escan) as (Hb & _ & _).
  simpl in Hb.
  exists lastc, first, rest, c0.
  rewrite default_files_backgroundRun, Hb.
  repeat split; auto.
Qed.

(** C2 (as amended).  For every line the parser returns a command for,
    [backgroundRun] is true if and only if the last character of the
    line is [&], whether or not a space stands before it; when it is
    true that one character is removed before the line is cut into
    tokens, and otherwise the whole line is. *)
Theorem processCommand_background_flag (fm : bool) (block : command)
    (line : cstr) (c : command) :
  processCommand fm block line = Ok c ->
  (backgroundRun c = true <-> last line = Some "&"%char) /\
  exists first rest c0,
    tokens (if backgroundRun c
            then take (length line - 1) line else line) = first :: rest /\
    arguments c !! 0 = Some (Some first) /\
    scan_tokens rest 1 (initial_command block (backgroundRun c) first)
      = Ok c0 /\
    c = default_files fm c0.
Proof.
  intros H.
  destruct (processCommand_Ok _ _ _ _ H)
    as (lastc & first & rest & c0 & Hlast & Hbg & Htok & Hscan & _ & Hc).
  split.
  - rewrite Hbg, Hlast. split.
    + intros E. apply ascii_eqb_eq in E. now subst.
    + intros [= ->]. apply ascii_eqb_refl.
  - exists first, rest, c0. repeat split; auto.
    rewrite Hc, default_files_arguments.
    apply scan_tokens_slots in Hscan as [_ Hslot].
    rewrite Hslot by lia. reflexivity.
Qed.

Lemma processCommand_background_flag_witness :
  exists c,
    processCommand false zero_block (lit "sleep 5 &") = Ok c /\
    backgroundRun c = true /\
    last (lit "sleep 5 &") = Some "&"%char.
Proof.
  destruct (processCommand false zero_block (lit "sleep 5 &")) as [c|f] eqn:E;
    [|vm_compute in E; discriminate].
  exists c. split; [reflexivity|].
  destruct (processCommand_background_flag _ _ _ _ E) as [[_ Hbg] _].
  split; [apply Hbg|]; reflexivity.
Defined.

(** C2, as the claim words it, fails for an [&] glued to a word: the
    last token of "echo hi&" is "hi&", no [&] stands alone, and yet the
    flag is set and the arguments are "echo" and "hi". *)
Lemma processCommand_glued_ampersand_counterexample :
  exists c,
    processCommand false zero_block (lit "echo hi&") = Ok c /\
    backgroundRun c = true /\
    argv (arguments c) = [lit "echo"; lit "hi"] /\
    tokens (lit "echo hi&") = [lit "echo"; lit "hi&"].
Proof. eexists. vm_compute. repeat split. Qed.


Lemma default_files_inputFile (fm : bool) (c : command) :
  inputFile (default_files fm c) =
  match inputFile c with
  | Some f => Some f
  | None => if backgroundRun c && negb fm then Some dev_null else None
  end.
Proof.
  destruct c as [a i o b]. unfold default_files. simpl.
  destruct b, fm, i, o; reflexivity.
Qed.

Lemma default_files_outputFile (fm : bool) (c : command) :
  outputFile (default_files fm c) =
  match outputFile c with
  | Some f => Some f
  | None => if backgroundRun c && negb fm then Some dev_null else None
  end.
Proof.
  destruct c as [a i o b]. unfold default_files. simpl.
  destruct b, fm, i, o; reflexivity.
Qed.

(** The two file pointers of a parsed command, when [malloc] handed out
    a cleared block: the operand of the last operator, else /dev/null
    for a background command parsed while the mode is off, else NULL. *)
Lemma processCommand_files (fm : bool) (block : command) (line : cstr)
    (c : command) :
  cleared block ->
  processCommand fm block line = Ok c ->
  let toks := tail (tokens (if backgroundRun c
                            then take (length line - 1) line else line)) in
  inputFile c = match redirection (lit "<") toks with
                | Some f => Some f
                | None => if backgroundRun c && negb fm
                          then Some dev_null else None
                end /\
  outputFile c = match redirection (lit ">") toks with
                 | Some f => Some f
                 | None => if backgroundRun c && negb fm
                           then Some dev_null else None
                 end.
Proof.
  intros [Hin Hout] H.
  destruct (processCommand_Ok _ _ _ _ H)
    as (lastc & first & rest & c0 & _ & _ & Htok & Hscan & Hbg & Hc).
  rewrite Htok. simpl tail. cbv zeta.
  apply scan_tokens_files in Hscan as (_ & Hi & Ho). simpl in Hi, Ho.
  rewrite Hin in Hi. rewrite Hout in Ho.
  replace (inputFile c) with (inputFile (default_files fm c0))
    by now rewrite <- Hc.
  replace (outputFile c) with (outputFile (default_files fm c0))
    by now rewrite <- Hc.
  rewrite default_files_inputFile, default_files_outputFile, Hi, Ho, Hbg.
  split.
  - now destruct (redirection (lit "<") rest).
  - now destruct (redirection (lit ">") rest).
Qed.

(** [processCommand] does not initialise the two file pointers: where
    the line has no redirection, a pointer the block held before shows
    through in the command. *)
Lemma processCommand_block_inputFile (fm : bool) (block : command)
    (line : cstr) (c : command) (f : cstr) :
  processCommand fm block line = Ok c ->
  inputFile block = Some f ->
  redirection (lit "<")
    (tail (tokens (if backgroundRun c
                   then take (length line - 1) line else line))) = None ->
  inputFile c = Some f.
Proof.
  intros H Hblock.
  destruct (processCommand_Ok _ _ _ _ H)
    as (lastc & first & rest & c0 & _ & _ & Htok & Hscan & _ & Hc).
  rewrite Htok. simpl tail. intros Hnone.
  apply scan_tokens_files in Hscan as (_ & Hi & _). simpl in Hi.
  rewrite Hnone, Hblock in Hi.
  now rewrite Hc, default_files_inputFile, Hi.
Qed.

(** What the defaults give when [malloc] hands out a cleared block:
    every command parsed with [backgroundRun] true has, while foreground-only mode is off, each of
    its two files set to /dev/null unless a redirection of the line gave
    it, and, while the mode is on, no file but those the redirections
    gave.  "sleep 5 &" yields the arguments "sleep" and "5", the flag
    set, and both files /dev/null exactly when the mode is off. *)
Theorem processCommand_default_files (fm : bool) (block : command) :
  cleared block ->
  (forall (line : cstr) (c : command),
     processCommand fm block line = Ok c ->
     backgroundRun c = true ->
     let toks := tail (tokens (take (length line - 1) line)) in
     inputFile c = match redirection (lit "<") toks with
                   | Some f => Some f
                   | None => if fm then None else Some (lit "/dev/null")
                   end /\
     outputFile c = match redirection (lit ">") toks with
                    | Some f => Some f
                    | None => if fm then None else Some (lit "/dev/null")
                    end) /\
  (exists c : command,
     processCommand fm block (lit "sleep 5 &") = Ok c /\
     backgroundRun c = true /\
     argv (arguments c) = [lit "sleep"; lit "5"] /\
     inputFile c = (if fm then None else Some (lit "/dev/null")) /\
     outputFile c = (if fm then None else Some (lit "/dev/null"))).
Proof.
  intros Hclear. split.
  - intros line c H Hbg.
    pose proof (processCommand_files _ _ _ _ Hclear H) as Hfiles.
    rewrite Hbg in Hfiles. cbv zeta in *.
    now destruct fm.
  - destruct block as [a i o b]. destruct Hclear as [Hi Ho].
    simpl in Hi, Ho. subst i o.
    destruct fm;
      (eexists; split; [vm_compute; reflexivity|vm_compute; repeat split]).
Qed.


Lemma processCommand_default_files_witness :
  cleared zero_block /\
  exists c : command,
    processCommand false zero_block (lit "sleep 5 &") = Ok c /\
    backgroundRun c = true /\
    argv (arguments c) = [lit "sleep"; lit "5"] /\
    inputFile c = Some (lit "/dev/null") /\
    outputFile c = Some (lit "/dev/null").
Proof.
  assert (H : cleared zero_block) by (split; reflexivity).
  split; [exact H|].
  exact (proj2 (processCommand_default_files false zero_block H)).
Defined.

(** An operator that took an operand in the line that was cut into
    tokens is a token of the line as it was typed. *)
Lemma redirection_in_line (op : cstr) (line : cstr) (lastc : ascii)
    (first f : cstr) (rest : list cstr) :
  last line = Some lastc ->
  tokens (if ascii_eqb lastc "&"%char
          then take (length line - 1) line else line) = first :: rest ->
  redirection op rest = Some f ->
  In op (tokens line).
Proof.
  intros Hlast Htok Hred.
  apply redirection_Some in Hred as (pre & post & ->).
  destruct (ascii_eqb lastc "&"%char) eqn:E.
  - apply ascii_eqb_eq in E. subst lastc.
    apply last_snoc_take in Hlast.
    destruct (tokens_acc_snoc (lit " ") "&"%char
                (take (length line - 1) line) eq_refl
                [] (first :: pre) op f post Htok) as [post' H].
    rewrite Hlast in H. unfold tokens. rewrite H.
    apply in_or_app. right. now left.
  - rewrite Htok. right. apply in_or_app. right. now left.
Qed.

(** What holds of the files when [malloc] hands out a cleared block:
    the input file of a parsed command is NULL unless [<] is a token of the line or the file is the
    /dev/null of a background command parsed while the mode is off; the
    same holds of the output file and [>].  "echo hi" yields the
    arguments "echo" and "hi", the flag clear and both files NULL. *)
Theorem processCommand_files_absent (fm : bool) (block : command) :
  cleared block ->
  (forall (line : cstr) (c : command),
     processCommand fm block line = Ok c ->
     (inputFile c <> None ->
      In (lit "<") (tokens line) \/
      (backgroundRun c = true /\ fm = false /\
       inputFile c = Some (lit "/dev/null"))) /\
     (outputFile c <> None ->
      In (lit ">") (tokens line) \/
      (backgroundRun c = true /\ fm = false /\
       outputFile c = Some (lit "/dev/null")))) /\
  (exists c : command,
     processCommand fm block (lit "echo hi") = Ok c /\
     argv (arguments c) = [lit "echo"; lit "hi"] /\
     backgroundRun c = false /\
     inputFile c = None /\
     outputFile c = None).
Proof.
  intros Hclear. split.
  - intros line c H.
    pose proof (processCommand_files _ _ _ _ Hclear H) as [Hi Ho].
    destruct (processCommand_Ok _ _ _ _ H)
      as (lastc & first & rest & c0 & Hlast & Hbg & Htok & _).
    rewrite Htok in Hi, Ho. simpl tail in Hi, Ho.
    rewrite Hbg in Htok.
    split; intros Hsome.
    + destruct (redirection (lit "<") rest) as [f|] eqn:E.
      * left. eapply redirection_in_line; eauto.
      * right. destruct (backgroundRun c), fm; simpl in Hi;
          try congruence; auto.
    + destruct (redirection (lit ">") rest) as [f|] eqn:E.
      * left. eapply redirection_in_line; eauto.
      * right. destruct (backgroundRun c), fm; simpl in Ho;
          try congruence; auto.
  - destruct block as [a i o b]. destruct Hclear as [Hi Ho].
    simpl in Hi, Ho. subst i o.
    destruct fm;
      (eexists; split; [vm_compute; reflexivity|vm_compute; repeat split]).
Qed.

Lemma processCommand_files_absent_witness :
  cleared zero_block /\
  exists c : command,
    processCommand false zero_block (lit "echo hi") = Ok c /\
    argv (arguments c) = [lit "echo"; lit "hi"] /\
    backgroundRun c = false /\
    inputFile c = None /\
    outputFile c = None.
Proof.
  assert (H : cleared zero_block) by (split; reflexivity).
  split; [exact H|].
  exact (proj2 (processCommand_files_absent false zero_block H)).
Defined.

(** C4 fails on the code.  The loop counts the slot index up at every
    turn, also when the turn read a redirection, so the slot of that turn
    stays NULL: for "wc < in.txt -l" the token "-l" lands in slot 2
    behind a NULL in slot 1, and the argument vector every reader sees
    ends before it.  The claim asks for "wc" followed by "-l". *)
Lemma processCommand_argument_gap :
  exists c : command,
    processCommand false zero_block (lit "wc < in.txt -l") = Ok c /\
    take 3 (arguments c) = [Some (lit "wc"); None; Some (lit "-l")] /\
    argv (arguments c) = [lit "wc"] /\
    inputFile c = Some (lit "in.txt") /\
    plain_tokens (tokens (lit "wc < in.txt -l")) = [lit "wc"; lit "-l"].
Proof. eexists. vm_compute. repeat split. Qed.

(** C3 fails on the code.  [processCommand] never sets the two file
    pointers of the block [malloc] returned before it reads them: with
    a pointer left in the block where [inputFile] lies, "sleep 5 &"
    parsed while the mode is off keeps that pointer although the line
    has no [<], where the claim asks for /dev/null. *)
Lemma processCommand_stale_file_background :
  exists c : command,
    processCommand false (stale_block (lit "stale.txt")) (lit "sleep 5 &")
      = Ok c /\
    backgroundRun c = true /\
    argv (arguments c) = [lit "sleep"; lit "5"] /\
    redirection (lit "<") (tail (tokens (lit "sleep 5 "))) = None /\
    inputFile c = Some (lit "stale.txt") /\
    outputFile c = Some (lit "/dev/null").
Proof. eexists. vm_compute. repeat split. Qed.

(** C5 fails on the code, by the same missing initialisation: with a
    pointer left in the block where [inputFile] lies, "echo hi" returns
    a command with that pointer as its input file, although no [<] is
    in the line and the command is not in the background.  The claim
    asks for the file to be absent. *)
Lemma processCommand_stale_file_foreground :
  exists c : command,
    processCommand false (stale_block (lit "stale.txt")) (lit "echo hi")
      = Ok c /\
    backgroundRun c = false /\
    argv (arguments c) = [lit "echo"; lit "hi"] /\
    tokens (lit "echo hi") = [lit "echo"; lit "hi"] /\
    inputFile c = Some (lit "stale.txt").
Proof. eexists. vm_compute. repeat split. Qed.

End ParserClaims.

Section ArgumentFacts.
Import Parser.

Local Open Scope nat_scope.

(** The vector read up to the first NULL, from what the slots hold. *)
Lemma argv_lookup (strs : list cstr) :
  forall slots : list (option cstr),
  (forall j s, strs !! j = Some s -> slots !! j = Some (Some s)) ->
  (slots !! length strs = Some None \/ slots !! length strs = None) ->
  argv slots = strs.
Proof.
  induction strs as [|s strs IH]; intros slots Hstrs Hend.
  - destruct slots as [|[a|] slots]; simpl in *; try reflexivity.
    destruct Hend; discriminate.
  - pose proof (Hstrs 0 s eq_refl) as H0.
    destruct slots as [|x slots]; [discriminate|].
    injection H0 as ->. simpl. f_equal. apply IH.
    + intros j t Hj. apply (Hstrs (S j) t Hj).
    + exact Hend.
Qed.

Lemma filled_argv (slots : list (option cstr)) (strs : list cstr) :
  filled slots strs -> argv slots = strs.
Proof.
  intros (Hlen & Hstrs & Hnull). apply argv_lookup; [exact Hstrs|].
  destruct (decide (length strs < length slots)) as [Hlt|Hge].
  - left. apply Hnull. lia.
  - right. apply lookup_ge_None. lia.
Qed.

Lemma filled_set_argument (c : command) (strs : list cstr) (tok : cstr) :
  filled (arguments c) strs ->
  length strs < ARGUMENTS_SIZE ->
  filled (arguments (set_argument (length strs) tok c)) (strs ++ [tok]).
Proof.
  intros (Hlen & Hstrs & Hnull) Hlt. simpl.
  split; [now rewrite length_insert|]. split.
  - intros j s Hj.
    destruct (decide (j = length strs)) as [->|Hne].
    + rewrite list_lookup_insert_eq by lia.
      rewrite lookup_app_r, Nat.sub_diag in Hj by lia.
      now injection Hj as ->.
    + rewrite list_lookup_insert_ne by lia.
      apply Hstrs. rewrite lookup_app_l in Hj; [exact Hj|].
      apply lookup_lt_Some in Hj. rewrite length_app in Hj. simpl in Hj. lia.
  - intros j Hj. rewrite length_app, length_insert in Hj. simpl in Hj.
    rewrite list_lookup_insert_ne by lia. apply Hnull. lia.
Qed.

(** The vector after the loop: what it held before, and the tokens up
    to the first operator.  The turn that reads an operator leaves its
    slot NULL, and the vector ends there. *)
Lemma scan_tokens_argv (toks : list cstr) :
  forall (c c' : command) (strs : list cstr),
  filled (arguments c) strs ->
  scan_tokens toks (length strs) c = Ok c' ->
  argv (arguments c') = strs ++ plain_prefix toks.
Proof.
  induction toks as [| tok Hop | tok file rest Hop IH | tok rest Hop IH]
    using token_list_ind; intros c c' strs Hfilled Hscan.
  - injection Hscan as <-. rewrite app_nil_r. now apply filled_argv.
  - apply is_operator_cases in Hop as [-> | ->]; discriminate.
  - simpl plain_prefix. rewrite Hop, app_nil_r.
    destruct Hfilled as (Hlen & Hstrs & Hnull).
    assert (Hslots : length (arguments c') = length (arguments c) /\
              forall j, j < S (length strs) ->
                        arguments c' !! j = arguments c !! j).
    { apply is_operator_cases in Hop as [-> | ->]; simpl in Hscan;
        now apply scan_tokens_slots in Hscan. }
    destruct Hslots as [Hlen' Hsame].
    apply argv_lookup.
    + intros j s Hj. rewrite Hsame; [now apply Hstrs|].
      apply lookup_lt_Some in Hj. lia.
    + rewrite Hsame by lia.
      destruct (decide (length strs < length (arguments c))) as [Hlt|Hge].
      * left. apply Hnull. lia.
      * right. apply lookup_ge_None. lia.
  - simpl plain_prefix. rewrite Hop.
    apply is_operator_false in Hop as [H1 H2].
    simpl in Hscan. rewrite H1, H2 in Hscan.
    destruct (length strs <? ARGUMENTS_SIZE) eqn:Hlt; [|discriminate].
    apply Nat.ltb_lt in Hlt.
    pose proof (filled_set_argument c strs tok Hfilled Hlt) as Hfilled'.
    replace (S (length strs)) with (length (strs ++ [tok])) in Hscan
      by (rewrite length_app; simpl; lia).
    rewrite (IH _ _ _ Hfilled' Hscan), <- app_assoc. reflexivity.
Qed.

Lemma filled_initial_command (block : command) (bg : bool) (first : cstr) :
  filled (arguments (initial_command block bg first)) [first].
Proof.
  change (arguments (initial_command block bg first))
    with (Some first :: replicate (pred ARGUMENTS_SIZE) (@None cstr)).
  split; [|split].
  - cbn [length]. now rewrite length_replicate.
  - intros [|j] s; simpl; [|discriminate].
    intros [= <-]. reflexivity.
  - intros [|j] Hj; cbn [length] in Hj; [lia|].
    rewrite length_replicate in Hj.
    change ((Some first :: replicate (pred ARGUMENTS_SIZE) None) !! S j)
      with (replicate (pred ARGUMENTS_SIZE) (@None cstr) !! j).
    apply lookup_replicate_2. lia.
Qed.

(** The argument vector of a parsed command: the first token and the
    tokens behind it up to the first redirection operator. *)
Lemma processCommand_argv (fm : bool) (block : command) (line : cstr)
    (c : command) :
  processCommand fm block line = Ok c ->
  exists first rest,
    tokens (if backgroundRun c
            then take (length line - 1) line else line) = first :: rest /\
    argv (arguments c) = first :: plain_prefix rest.
Proof.
  intros H.
  destruct (processCommand_Ok _ _ _ _ H)
    as (lastc & first & rest & c0 & _ & _ & Htok & Hscan & _ & Hc).
  exists first, rest. split; [exact Htok|].
  rewrite Hc, default_files_arguments.
  apply (scan_tokens_argv rest _ c0 [first]
           (filled_initial_command block _ first) Hscan).
Qed.

End ArgumentFacts.

(* ================================================================== *)
(** ** handle_SIGTSTP                                                  *)
(* ================================================================== *)

Section SignalClaims.
Import Shell.

(** One delivery of the signal: the mode flips, and the message of the
    transition and the three bytes of the prompt literal (":", a blank
    and its NUL) go to standard output. *)
Lemma handle_SIGTSTP_once (p : process) :
  foregroundMode (handle_SIGTSTP p) = negb (foregroundMode p) /\
  stdout (handle_SIGTSTP p) =
    stdout p
    ++ (if foregroundMode p then exit_message else enter_message)
    ++ prompt ++ [NUL].
Proof.
  unfold handle_SIGTSTP. destruct (foregroundMode p); simpl.
  - split; [reflexivity|]. now rewrite <- app_assoc.
  - split; [reflexivity|]. now rewrite <- app_assoc.
Qed.

(** C8 (as amended).  Two deliveries of the signal bring the mode back
    to what it was.  From the mode off, the first writes the entering
    message and the second the exiting message; from the mode on, the
    exiting message comes first and the entering message second.  Each
    delivery also writes the prompt (with the NUL that ends the literal)
    behind its message. *)
Theorem handle_SIGTSTP_twice (p : process) :
  let off := set_foregroundMode false p in
  let on := set_foregroundMode true p in
  foregroundMode (handle_SIGTSTP (handle_SIGTSTP p)) = foregroundMode p /\
  foregroundMode (handle_SIGTSTP off) = true /\
  foregroundMode (handle_SIGTSTP on) = false /\
  stdout (handle_SIGTSTP off) = stdout p ++ enter_message ++ prompt ++ [NUL] /\
  stdout (handle_SIGTSTP on) = stdout p ++ exit_message ++ prompt ++ [NUL] /\
  stdout (handle_SIGTSTP (handle_SIGTSTP off)) =
    stdout p ++ (enter_message ++ prompt ++ [NUL])
             ++ (exit_message ++ prompt ++ [NUL]) /\
  stdout (handle_SIGTSTP (handle_SIGTSTP on)) =
    stdout p ++ (exit_message ++ prompt ++ [NUL])
             ++ (enter_message ++ prompt ++ [NUL]).
Proof.
  cbv zeta.
  pose proof (handle_SIGTSTP_once p) as [Hm1 _].
  pose proof (handle_SIGTSTP_once (handle_SIGTSTP p)) as [Hm2 _].
  split; [rewrite Hm2, Hm1; apply negb_involutive|].
  repeat split; unfold handle_SIGTSTP; simpl;
    rewrite <- ?app_assoc; reflexivity.
Qed.

(** C8, as the claim words it, fails from the mode on: the first of two
    deliveries then writes the exiting message and the second the
    entering message. *)
Lemma handle_SIGTSTP_from_on_counterexample :
  foregroundMode (set_foregroundMode true example_shell) = true /\
  stdout (handle_SIGTSTP
            (handle_SIGTSTP (set_foregroundMode true example_shell))) =
    (exit_message ++ prompt ++ [NUL]) ++ (enter_message ++ prompt ++ [NUL]) /\
  stdout (handle_SIGTSTP
            (handle_SIGTSTP (set_foregroundMode true example_shell))) <>
    (enter_message ++ prompt ++ [NUL]) ++ (exit_message ++ prompt ++ [NUL]).
Proof. vm_compute. repeat split. discriminate. Qed.

End SignalClaims.

(* ================================================================== *)
(** ** Wait statuses on Linux                                          *)
(* ================================================================== *)

Section LinuxFacts.
Import Shell.

(** A property of the integers from 0 up to [n], checked one by one. *)
Lemma below_forallb (f : Z -> bool) (n : nat) :
  forallb (fun i => f (Z.of_nat i)) (seq 0 n) = true ->
  forall z, 0 <= z < Z.of_nat n -> f z = true.
Proof.
  intros H z Hz. rewrite forallb_forall in H.
  rewrite <- (Z2Nat.id z) by lia. apply H.
  apply in_seq. lia.
Qed.

(** The status of a child that exited with code [n]. *)
Lemma linux_exit_status (n : Z) :
  0 <= n < 256 ->
  Linux.wifexited (n * 256) = true /\ Linux.wexitstatus (n * 256) = n.
Proof.
  intros Hn.
  pose proof (below_forallb
    (fun z => Linux.wifexited (z * 256)
              && (Linux.wexitstatus (z * 256) =? z)) 256) as H.
  specialize (H ltac:(vm_compute; reflexivity) n Hn).
  apply andb_true_iff in H as [H1 H2]. apply Z.eqb_eq in H2. auto.
Qed.

(** The status of a child killed by signal [sig]. *)
Lemma linux_signal_status (sig : Z) :
  1 <= sig < 127 ->
  Linux.wifexited sig = false /\ Linux.wifsignaled sig = true /\
  Linux.wtermsig sig = sig.
Proof.
  intros Hs.
  pose proof (below_forallb
    (fun z => (z =? 0) ||
              (negb (Linux.wifexited z) && Linux.wifsignaled z
               && (Linux.wtermsig z =? z))) 127) as H.
  specialize (H ltac:(vm_compute; reflexivity) sig ltac:(simpl; lia)).
  apply orb_true_iff in H as [H|H]; [apply Z.eqb_eq in H; lia|].
  apply andb_true_iff in H as [H H3].
  apply andb_true_iff in H as [H1 H2].
  apply negb_true_iff in H1. apply Z.eqb_eq in H3. auto.
Qed.

End LinuxFacts.

(* ================================================================== *)
(** ** runCommand                                                      *)
(* ================================================================== *)

Section ExecutorClaims.
Import Parser Shell.

Context {W : WaitStatus}.

(** C6.  For a command whose first argument is "status", and every
    status passed in, [runCommand] returns that same status.  It writes
    "exit value N" when the status is that of a child that exited with
    code N, "terminated by signal N" when it is that of a child killed by
    signal N, and changes nothing else of the process. *)
Theorem runCommand_status (k : kernel) (p : process) (c : command)
    (fStatus : Z) :
  arguments c !! 0%nat = Some (Some (lit "status")) ->
  exists p' : process,
    runCommand k p c fStatus = Returns fStatus p' /\
    (WIFEXITED fStatus = true ->
     p' = put_stdout
            (lit "exit value " ++ dec (WEXITSTATUS fStatus) ++ newline) p) /\
    (WIFEXITED fStatus = false -> WIFSIGNALED fStatus = true ->
     p' = put_stdout
            (lit "terminated by signal " ++ dec (WTERMSIG fStatus)
               ++ newline) p).
Proof.
  intros Hname. unfold runCommand. rewrite Hname.
  change (streq (lit "status") (lit "exit")) with false.
  change (streq (lit "status") (lit "cd")) with false.
  change (streq (lit "status") (lit "status")) with true.
  cbv iota.
  destruct (WIFEXITED fStatus); [|destruct (WIFSIGNALED fStatus)];
    eexists; (split; [reflexivity|]); split; intros;
    solve [reflexivity | discriminate].
Qed.


(** C7 (as amended).  For a command whose first argument is "cd",
    [runCommand] returns the status passed in and writes nothing, on
    either stream, whether the directory change works or not.  The path
    it hands to [chdir] is the second argument, or the value of HOME when
    there is none; when [chdir] fails the process, its working directory
    included, is as before, and when it succeeds the working directory is
    the one [chdir] reached. *)
Theorem runCommand_cd (k : kernel) (p : process) (c : command)
    (fStatus : Z) (operand : option cstr) :
  arguments c !! 0%nat = Some (Some (lit "cd")) ->
  arguments c !! 1%nat = Some operand ->
  let path := match operand with
              | Some dir => Some dir
              | None => getenv_HOME k
              end in
  exists p' : process,
    runCommand k p c fStatus = Returns fStatus p' /\
    stdout p' = stdout p /\
    stderr p' = stderr p /\
    (chdir_to k (cwd p) path = None -> p' = p) /\
    (forall d, chdir_to k (cwd p) path = Some d -> cwd p' = d).
Proof.
  intros Hname Hop. unfold runCommand. rewrite Hname, Hop.
  change (streq (lit "cd") (lit "exit")) with false.
  change (streq (lit "cd") (lit "cd")) with true.
  cbv iota zeta.
  destruct operand as [dir|]; eexists; (split; [reflexivity|]);
    unfold chdir;
    destruct (chdir_to k (cwd p) _) as [d|]; simpl;
    repeat split; congruence.
Qed.

(** The ways a process that runs [runCommand] leaves through [exit]:
    the built-in "exit", with status 0 and nothing written; a failed
    [fork], with status 1 behind the message of [perror] on the error
    stream; and, with status 1, in the child that [fork] created. *)
Lemma runCommand_exit_paths (k : kernel) (p : process) (c : command)
    (fStatus : Z) (code : Z) (p' : process) :
  runCommand k p c fStatus = Exits code p' ->
  (arguments c !! 0%nat = Some (Some (lit "exit")) /\ code = 0 /\ p' = p) \/
  (fork_returns k = -1 /\ code = 1 /\
   p' = perror (lit "fork()" ++ newline) (fork_errtext k) p) \/
  (fork_returns k = 0 /\ code = 1).
Proof.
  unfold runCommand.
  destruct (arguments c !! 0%nat) as [[name|]|] eqn:Hname; try discriminate.
  destruct (streq name (lit "exit")) eqn:Hexit.
  { intros [= <- <-]. left. apply streq_eq in Hexit. now subst. }
  destruct (streq name (lit "cd")).
  { destruct (arguments c !! 1%nat) as [[dir|]|]; discriminate. }
  destruct (streq name (lit "status")).
  { destruct (WIFEXITED fStatus); [discriminate|].
    destruct (WIFSIGNALED fStatus); discriminate. }
  destruct (fork_returns k =? -1) eqn:Hfork.
  { intros [= <- <-]. right. left. apply Z.eqb_eq in Hfork. auto. }
  destruct (fork_returns k =? 0) eqn:Hchild.
  - intros H. right. right. apply Z.eqb_eq in Hchild. split; [exact Hchild|].
    unfold child in H.
    destruct (inputFile c) as [fi|];
      [destruct (open_rdonly k fi);
       [destruct (dup2_errtext k 0)|]|];
      try (injection H as <- _; reflexivity);
      (destruct (outputFile c) as [fo|];
       [destruct (open_trunc k fo);
        [destruct (dup2_errtext k 1)|]|]);
      try (injection H as <- _; reflexivity);
      (destruct (null_terminated (arguments c));
       [destruct (execvp_succeeds k name _)|]); try discriminate;
      injection H as <- _; reflexivity.
  - unfold parent.
    destruct (negb (backgroundRun c) || foregroundMode p);
      [destruct (waitpid_status k)|]; discriminate.
Qed.

(** C10.  An external command run in the background while
    foreground-only mode is off: in the parent, [runCommand] returns the
    status passed in, having written the line with the child's pid and
    nothing else; it does not wait. *)
Theorem runCommand_background (k : kernel) (p : process) (c : command)
    (fStatus : Z) (name : cstr) :
  arguments c !! 0%nat = Some (Some name) ->
  streq name (lit "exit") = false ->
  streq name (lit "cd") = false ->
  streq name (lit "status") = false ->
  backgroundRun c = true ->
  foregroundMode p = false ->
  fork_returns k <> -1 ->
  fork_returns k <> 0 ->
  runCommand k p c fStatus =
  Returns fStatus
    (put_stdout (lit "background pid is " ++ dec (fork_returns k) ++ newline)
       p).
Proof.
  intros Hname He Hc Hs Hbg Hfm Hf1 Hf0.
  unfold runCommand. rewrite Hname, He, Hc, Hs.
  apply Z.eqb_neq in Hf1, Hf0. rewrite Hf1, Hf0.
  unfold parent. rewrite Hbg, Hfm. simpl. rewrite Hfm. reflexivity.
Qed.



(** The calls of [exit]: a turn of the loop of [main] ends in [exit]
    only inside [runCommand], and there in one of three ways: through the built-in
    "exit", with status 0; through a failed [fork], with status 1 after
    [perror] reported it on the error stream; or, with status 1, in the
    child that [fork] created, which is not the interpreter. *)
Theorem main_loop_exits (k : kernel) (reaped : list (Z * Z))
    (block : command) (input : cstr) (pid : Z) (fStatus : Z) (p : process)
    (code : Z) (p' : process) :
  main_loop_body k reaped block input pid fStatus p = Exits code p' ->
  exists (c : command) (p0 : process),
    runCommand k p0 c fStatus = Exits code p' /\
    ((arguments c !! 0%nat = Some (Some (lit "exit")) /\
      code = 0 /\ p' = p0) \/
     (fork_returns k = -1 /\ code = 1 /\
      p' = perror (lit "fork()" ++ newline) (fork_errtext k) p0) \/
     (fork_returns k = 0 /\ code = 1)).
Proof.
  unfold main_loop_body.
  destruct (streq input []); [discriminate|].
  destruct (match input with
            | [] => false
            | ch :: _ => ascii_eqb ch "#"%char
            end); [discriminate|].
  destruct (Expander.variableExpansion input Expander.marker pid)
    as [expanded|]; [|discriminate].
  destruct (processCommand _ block expanded) as [c|]; [|discriminate].
  intros H. eexists c, _. split; [exact H|].
  now apply runCommand_exit_paths in H.
Qed.

End ExecutorClaims.

Section ExecutorExamples.
Import Parser Shell.

(** C9 fails on the code.  [main] tests its line for being empty, not
    for being blank: a line of one blank reaches [processCommand], where
    [strtok_r] finds no token and [strdup] is handed NULL.  The turn ends
    in undefined behaviour, in practice with the interpreter killed,
    which is neither the built-in "exit" nor a reported failure of
    [fork].  A redirection operator without operand, as in "ls >", ends
    the same way in [strlen]. *)
Lemma main_loop_blank_crash :
  main_loop_body (W := Linux.wait_status) example_linux [] zero_block
    (lit " ") 4711 0 example_shell = Undefined NullDereference /\
  main_loop_body (W := Linux.wait_status) example_linux [] zero_block
    (lit "ls >") 4711 0 example_shell = Undefined NullDereference.
Proof. vm_compute. split; reflexivity. Qed.

Lemma runCommand_status_witness :
  exists p' : process,
    runCommand (W := Linux.wait_status) example_linux example_shell (words "status") 768
      = Returns 768 p' /\
    stdout p' = lit "exit value 3" ++ newline.
Proof.
  destruct (runCommand_status (W := Linux.wait_status) example_linux example_shell
              (words "status") 768 eq_refl) as (p' & Hrun & Hexit & _).
  exists p'. split; [exact Hrun|].
  rewrite Hexit by reflexivity. reflexivity.
Defined.

Lemma runCommand_cd_witness :
  exists p' : process,
    runCommand (W := Linux.wait_status) example_linux example_shell (words "cd") 768
      = Returns 768 p' /\
    stdout p' = [] /\ cwd p' = lit "/home/user".
Proof.
  destruct (runCommand_cd (W := Linux.wait_status) example_linux example_shell
              (words "cd") 768 None eq_refl eq_refl)
    as (p' & Hrun & Hout & _ & _ & Hcwd).
  exists p'. split; [exact Hrun|]. split; [exact Hout|].
  apply Hcwd. reflexivity.
Defined.

(** C7, as the claim words it, fails where it has the failure reported:
    "cd /nonexistent", with no such directory, returns with nothing
    written to either stream. *)
Lemma runCommand_cd_failure_counterexample :
  chdir_to example_linux (cwd example_shell) (Some (lit "/nonexistent")) = None /\
  runCommand (W := Linux.wait_status) example_linux example_shell
    (words "cd /nonexistent") 768 = Returns 768 example_shell /\
  stdout example_shell = [] /\ stderr example_shell = [].
Proof. vm_compute. repeat split. Qed.

Lemma main_loop_exits_witness :
  exists (c : command) (p0 : process),
    runCommand (W := Linux.wait_status) example_linux p0 c 768 = Exits 0 p0 /\
    arguments c !! 0%nat = Some (Some (lit "exit")).
Proof.
  assert (H : main_loop_body (W := Linux.wait_status) example_linux [] zero_block
                (lit "exit") 4711 768 example_shell
              = Exits 0 (put_stdout prompt example_shell)) by reflexivity.
  destruct (main_loop_exits _ _ _ _ _ _ _ _ _ H)
    as (c & p0 & Hrun & [(Hname & _ & <-) | [(Hfork & _) | (Hfork & _)]]).
  - exists c, (put_stdout prompt example_shell). split; [exact Hrun|exact Hname].
  - discriminate Hfork.
  - discriminate Hfork.
Defined.

Lemma runCommand_background_witness :
  runCommand (W := Linux.wait_status) example_linux example_shell (words "sleep 5 &") 768
  = Returns 768 (put_stdout (lit "background pid is 1234" ++ newline) example_shell).
Proof.
  apply (runCommand_background (W := Linux.wait_status) example_linux example_shell
           (words "sleep 5 &") 768 (lit "sleep"));
    first [reflexivity | discriminate].
Defined.

End ExecutorExamples.

(* ================================================================== *)
(** ** More about variableExpansion                                    *)
(* ================================================================== *)

Section ExpanderBounds.
Import Expander.

Local Open Scope nat_scope.

Lemma variableExpansion_Ok (line : cstr) (pid : Z) (r : cstr) :
  variableExpansion line marker pid = Ok r ->
  r = replace_markers (dec pid) line /\ length r < NEWSTRING_SIZE.
Proof.
  rewrite variableExpansion_spec.
  destruct (_ <? NEWSTRING_SIZE) eqn:E; [|discriminate].
  intros [= <-]. split; [reflexivity|]. now apply Nat.ltb_lt.
Qed.

(** X1.  [variableExpansion] runs past the end of [newString] exactly
    when the line, with each of its N markers exchanged for the pid
    text, needs 2048 characters or more; it goes wrong in no other way. *)
Theorem variableExpansion_overrun (line : cstr) (pid : Z) :
  let N := occurrences marker line in
  (variableExpansion line marker pid = Fault OutOfBounds <->
   NEWSTRING_SIZE + 2 * N <= length line + N * length (dec pid)) /\
  (forall f, variableExpansion line marker pid = Fault f -> f = OutOfBounds).
Proof.
  cbv zeta. rewrite variableExpansion_spec.
  pose proof (replace_markers_length (dec pid) line) as Hlen.
  destruct (_ <? NEWSTRING_SIZE) eqn:E.
  - apply Nat.ltb_lt in E. split.
    + split; [discriminate|]. intros H. lia.
    + discriminate.
  - apply Nat.ltb_ge in E. split.
    + split; [intros _; lia|reflexivity].
    + now intros f [= <-].
Qed.

Lemma variableExpansion_overrun_witness :
  variableExpansion (concat (replicate 700 marker)) marker 4711
  = Fault OutOfBounds.
Proof.
  destruct (variableExpansion_overrun (concat (replicate 700 marker)) 4711)
    as [[_ H] _].
  apply H. apply Nat.leb_le. vm_compute. reflexivity.
Defined.

(** X2.  A line in which [strstr] finds no marker comes back unchanged,
    provided it fits the buffer. *)
Theorem variableExpansion_no_marker (line : cstr) (pid : Z) :
  strstr line marker = None ->
  length line < NEWSTRING_SIZE ->
  variableExpansion line marker pid = Ok line.
Proof.
  intros Hnone Hfit. rewrite variableExpansion_spec.
  pose proof (replace_markers_strstr (dec pid) line) as H.
  rewrite Hnone in H. rewrite H.
  apply Nat.ltb_lt in Hfit. now rewrite Hfit.
Qed.

Lemma variableExpansion_no_marker_witness :
  variableExpansion (lit "ls -l $HOME") marker 4711 = Ok (lit "ls -l $HOME").
Proof.
  apply variableExpansion_no_marker.
  - reflexivity.
  - apply Nat.ltb_lt. reflexivity.
Defined.

(** X3.  Expanding what an expansion returned changes nothing, whatever
    the pid of the second expansion: no marker is left to replace. *)
Theorem variableExpansion_idempotent (line r : cstr) (pid pid' : Z) :
  variableExpansion line marker pid = Ok r ->
  variableExpansion r marker pid' = Ok r.
Proof.
  intros H. apply variableExpansion_Ok in H as [-> Hfit].
  rewrite variableExpansion_spec.
  pose proof (replace_markers_strstr (dec pid')
                (replace_markers (dec pid) line)) as Hr.
  rewrite (replace_markers_no_marker (dec pid) line (dec_dec_chars pid)) in Hr.
  rewrite Hr. apply Nat.ltb_lt in Hfit. now rewrite Hfit.
Qed.

Lemma variableExpansion_idempotent_witness :
  variableExpansion (lit "echo 4711 a4711$b") marker 99
  = Ok (lit "echo 4711 a4711$b").
Proof.
  apply (variableExpansion_idempotent (lit "echo $$ a$$$b") _ 4711 99).
  reflexivity.
Defined.

End ExpanderBounds.

(* ================================================================== *)
(** ** More about the tokens of a line                                 *)
(* ================================================================== *)

Section WordFacts.
Import Parser.

Local Open Scope nat_scope.

Lemma is_delim_blank (c : ascii) :
  is_delim (lit " ") c = true <-> c = " "%char.
Proof.
  unfold is_delim. simpl. rewrite orb_false_r. apply ascii_eqb_eq.
Qed.

Lemma is_delim_not_blank (c : ascii) :
  is_delim (lit " ") c = false <-> c <> " "%char.
Proof.
  rewrite <- is_delim_blank. destruct (is_delim (lit " ") c); split;
    congruence.
Qed.

(** Every token is a word. *)
Lemma tokens_acc_words (s cur : cstr) :
  ~ In " "%char cur -> Forall is_word (tokens_acc (lit " ") cur s).
Proof.
  revert cur; induction s as [|c s IH]; intros cur Hcur; cbn [tokens_acc].
  - destruct cur; constructor; [|constructor]. split; [discriminate|exact Hcur].
  - destruct (is_delim (lit " ") c) eqn:E.
    + destruct cur as [|c0 cur]; [now apply IH|].
      constructor; [split; [discriminate|exact Hcur]|now apply IH].
    + apply IH. apply is_delim_not_blank in E.
      intros Hin. apply in_app_or in Hin as [Hin|[Hin|[]]]; auto.
Qed.

Lemma tokens_words (s : cstr) : Forall is_word (tokens s).
Proof. apply tokens_acc_words. intros []. Qed.

(** A word read behind the token under way extends it. *)
Lemma tokens_acc_word (w cur rest : cstr) :
  ~ In " "%char w ->
  tokens_acc (lit " ") cur (w ++ rest) = tokens_acc (lit " ") (cur ++ w) rest.
Proof.
  revert cur; induction w as [|c w IH]; intros cur Hw; cbn [tokens_acc app].
  - now rewrite app_nil_r.
  - assert (E : is_delim (lit " ") c = false).
    { apply is_delim_not_blank. intros ->. apply Hw. now left. }
    rewrite E, IH, <- app_assoc; [reflexivity|].
    intros Hin. apply Hw. now right.
Qed.

(** Cutting a line of words at its blanks gives the words back. *)
Lemma tokens_join_words (ws : list cstr) :
  Forall is_word ws -> tokens (join_words ws) = ws.
Proof.
  unfold tokens. induction 1 as [|w ws [Hne Hw] Hws IH]; [reflexivity|].
  destruct ws as [|w' ws'].
  - cbn [join_words]. rewrite <- (app_nil_r w) at 1.
    rewrite tokens_acc_word by exact Hw. cbn [tokens_acc app]. now destruct w.
  - change (join_words (w :: w' :: ws'))
      with (w ++ " "%char :: join_words (w' :: ws')).
    rewrite tokens_acc_word by exact Hw. cbn [app].
    change (tokens_acc (lit " ") w (" "%char :: join_words (w' :: ws')))
      with (match w with
            | [] => tokens_acc (lit " ") [] (join_words (w' :: ws'))
            | _ => w :: tokens_acc (lit " ") [] (join_words (w' :: ws'))
            end).
    rewrite IH. now destruct w.
Qed.

(** A blank at the end of a line adds no token. *)
Lemma tokens_acc_trailing_blank (s cur : cstr) :
  tokens_acc (lit " ") cur (s ++ [" "%char]) = tokens_acc (lit " ") cur s.
Proof.
  revert cur; induction s as [|c s IH]; intros cur; cbn [tokens_acc app].
  - now destruct cur.
  - destruct (is_delim (lit " ") c); [|apply IH].
    destruct cur; now rewrite IH.
Qed.

(** A line of blanks has no token. *)
Lemma tokens_blanks (n : nat) : tokens (replicate n " "%char) = [].
Proof. unfold tokens. induction n as [|n IH]; [reflexivity|exact IH]. Qed.

Lemma plain_prefix_plain (toks : list cstr) :
  Forall (fun tok => is_operator tok = false) toks ->
  plain_prefix toks = toks.
Proof.
  induction 1 as [|tok toks Hop _ IH]; [reflexivity|].
  simpl. now rewrite Hop, IH.
Qed.

Lemma plain_prefix_sublist (toks : list cstr) (P : cstr -> Prop) :
  Forall P toks -> Forall P (plain_prefix toks).
Proof.
  induction 1 as [|tok toks Hp _ IH]; simpl; [constructor|].
  destruct (is_operator tok); constructor; auto.
Qed.

(** How the loop ends when the array has room for every token left:
    with a NULL dereference when an operator is left without operand,
    with a command otherwise. *)
Lemma scan_tokens_outcome (toks : list cstr) :
  forall (i : nat) (c : command),
  i + length toks <= ARGUMENTS_SIZE ->
  if dangling toks then scan_tokens toks i c = Fault NullDereference
  else exists c', scan_tokens toks i c = Ok c'.
Proof.
  induction toks as [| tok Hop | tok file rest Hop IH | tok rest Hop IH]
    using token_list_ind; intros i c Hlen.
  - simpl. eauto.
  - simpl dangling. rewrite Hop.
    apply is_operator_cases in Hop as [-> | ->]; reflexivity.
  - simpl dangling. rewrite Hop. simpl length in Hlen.
    apply is_operator_cases in Hop as [-> | ->]; simpl scan_tokens;
      apply IH; lia.
  - simpl dangling. rewrite Hop. simpl length in Hlen.
    apply is_operator_false in Hop as [H1 H2].
    simpl scan_tokens. rewrite H1, H2.
    assert (Hi : (i <? ARGUMENTS_SIZE) = true) by (apply Nat.ltb_lt; lia).
    rewrite Hi. apply IH. lia.
Qed.

(** How the loop ends over tokens none of which is an operator. *)
Lemma scan_tokens_plain (toks : list cstr) :
  Forall (fun tok => is_operator tok = false) toks ->
  forall (i : nat) (c : command),
  i <= ARGUMENTS_SIZE ->
  ARGUMENTS_SIZE < i + length toks ->
  scan_tokens toks i c = Fault OutOfBounds.
Proof.
  induction 1 as [|tok toks Hop _ IH]; intros i c Hi Hlen;
    simpl in Hlen; [lia|].
  apply is_operator_false in Hop as [H1 H2].
  simpl scan_tokens. rewrite H1, H2.
  destruct (i <? ARGUMENTS_SIZE) eqn:E; [|reflexivity].
  apply Nat.ltb_lt in E. apply IH; lia.
Qed.

End WordFacts.

(* ================================================================== *)
(** ** More about processCommand                                       *)
(* ================================================================== *)

Section ParserExtras.
Import Parser.

Local Open Scope nat_scope.

(** X4.  The slots of a parsed command before the first NULL hold the
    first token of the line followed by the tokens up to the first
    redirection operator; each of these strings is non-empty and has no
    blank, and the array keeps its 512 slots.  The array is
    NULL-terminated, so that these strings are the argument vector its
    readers see, exactly when they are fewer than 512. *)
Theorem processCommand_argument_vector (fm : bool) (block : command)
    (line : cstr) (c : command) :
  processCommand fm block line = Ok c ->
  (exists first rest,
     tokens (if backgroundRun c
             then take (length line - 1) line else line) = first :: rest /\
     argv (arguments c) = first :: plain_prefix rest) /\
  Forall is_word (argv (arguments c)) /\
  length (arguments c) = ARGUMENTS_SIZE /\
  (null_terminated (arguments c) = true <->
   length (argv (arguments c)) < ARGUMENTS_SIZE).
Proof.
  intros H.
  destruct (processCommand_argv _ _ _ _ H) as (first & rest & Htok & Hargv).
  assert (Hlen : length (arguments c) = ARGUMENTS_SIZE).
  { destruct (processCommand_Ok _ _ _ _ H)
      as (_ & first' & rest' & c0 & _ & _ & _ & Hscan & _ & Hc).
    rewrite Hc, default_files_arguments.
    apply scan_tokens_slots in Hscan as [Hlen _]. rewrite Hlen.
    pose proof (filled_initial_command block (backgroundRun c) first')
      as (Hl & _). exact Hl. }
  split; [now exists first, rest|]. split; [|split; [exact Hlen|]].
  - rewrite Hargv.
    pose proof (tokens_words
      (if backgroundRun c then take (length line - 1) line else line)) as Hw.
    rewrite Htok in Hw. inversion Hw; subst.
    constructor; [assumption|now apply plain_prefix_sublist].
  - unfold null_terminated. rewrite Hlen. apply Nat.ltb_lt.
Qed.

Lemma processCommand_argument_vector_witness :
  exists c : command,
    processCommand false zero_block (lit "ls -a > out -l") = Ok c /\
    argv (arguments c) = [lit "ls"; lit "-a"].
Proof.
  destruct (processCommand false zero_block (lit "ls -a > out -l"))
    as [c|f] eqn:E; [|vm_compute in E; discriminate].
  exists c. split; [reflexivity|].
  destruct (processCommand_argument_vector _ _ _ _ E)
    as ((first & rest & Htok & Hargv) & _).
  rewrite Hargv.
  assert (Hc : Ok c = processCommand false zero_block (lit "ls -a > out -l"))
    by now rewrite E.
  vm_compute in Hc. injection Hc as ->.
  vm_compute in Htok. injection Htok as <- <-. reflexivity.
Defined.

(** A line whose tokens behind the first are no operators and fit the
    array parses to its tokens. *)
Lemma processCommand_plain (fm : bool) (block : command) (line : cstr)
    (lastc : ascii) (first : cstr) (rest : list cstr) :
  last line = Some lastc ->
  tokens (if ascii_eqb lastc "&"%char
          then take (length line - 1) line else line) = first :: rest ->
  Forall (fun tok => is_operator tok = false) rest ->
  length rest < ARGUMENTS_SIZE ->
  exists c : command,
    processCommand fm block line = Ok c /\
    argv (arguments c) = first :: rest /\
    length (arguments c) = ARGUMENTS_SIZE /\
    backgroundRun c = ascii_eqb lastc "&"%char.
Proof.
  intros Hl Htok Hplain Hlen.
  pose proof (scan_tokens_outcome rest 1
                (initial_command block (ascii_eqb lastc "&"%char) first))
    as Hscan.
  assert (Hd : dangling rest = false).
  { clear -Hplain. induction Hplain as [|tok toks Hop _ IH];
      [reflexivity|]. simpl. now rewrite Hop. }
  rewrite Hd in Hscan. destruct Hscan as [c0 Hc0]; [lia|].
  exists (default_files fm c0).
  rewrite processCommand_tokens, Hl. cbv zeta. rewrite Htok, Hc0.
  split; [reflexivity|].
  rewrite default_files_arguments, default_files_backgroundRun.
  split; [|split].
  - rewrite (scan_tokens_argv rest _ c0 [first]
               (filled_initial_command block _ first) Hc0).
    now rewrite plain_prefix_plain.
  - pose proof (scan_tokens_slots _ _ _ _ Hc0) as [Hsame _].
    rewrite Hsame.
    now pose proof (filled_initial_command block
                      (ascii_eqb lastc "&"%char) first) as (Hl' & _).
  - now apply scan_tokens_files in Hc0 as (-> & _).
Qed.

(** X5.  A line of at most 511 words with one blank between them,
    none of the words behind the first being [<] or [>], parses to
    exactly these words in a NULL-terminated array; with " &" behind it
    the line parses to the same words and the flag set. *)
Theorem processCommand_words (fm : bool) (block : command)
    (first : cstr) (rest : list cstr) (bg : bool) :
  Forall is_word (first :: rest) ->
  Forall (fun tok => is_operator tok = false) rest ->
  length (first :: rest) < ARGUMENTS_SIZE ->
  (bg = false -> last (join_words (first :: rest)) <> Some "&"%char) ->
  exists c : command,
    processCommand fm block
      (if bg then join_words (first :: rest) ++ lit " &"
       else join_words (first :: rest)) = Ok c /\
    argv (arguments c) = first :: rest /\
    null_terminated (arguments c) = true /\
    backgroundRun c = bg.
Proof.
  intros Hwords Hplain Hlen Hlast.
  pose proof (tokens_join_words _ Hwords) as HJ.
  assert (Hrest : length rest < ARGUMENTS_SIZE) by (simpl in Hlen; lia).
  assert (Hshape : forall line lastc,
    last line = Some lastc ->
    tokens (if ascii_eqb lastc "&"%char
            then take (length line - 1) line else line) = first :: rest ->
    exists c : command,
      processCommand fm block line = Ok c /\
      argv (arguments c) = first :: rest /\
      null_terminated (arguments c) = true /\
      backgroundRun c = ascii_eqb lastc "&"%char).
  { intros line lastc Hl Htok.
    destruct (processCommand_plain fm block line lastc first rest
                Hl Htok Hplain Hrest) as (c & Hc & Hargv & Hsize & Hb).
    exists c. repeat split; auto.
    unfold null_terminated. rewrite Hargv, Hsize. now apply Nat.ltb_lt. }
  destruct bg.
  - replace (join_words (first :: rest) ++ lit " &")
      with ((join_words (first :: rest) ++ [" "%char]) ++ ["&"%char])
      by (rewrite <- app_assoc; reflexivity).
    apply (Hshape _ "&"%char); [apply last_snoc|].
    change (ascii_eqb "&" "&") with true. cbv iota.
    rewrite (length_app _ ["&"%char]). simpl length.
    rewrite Nat.add_sub, take_app_length.
    unfold tokens. now rewrite tokens_acc_trailing_blank.
  - destruct (last (join_words (first :: rest))) as [lastc|] eqn:E.
    + assert (Hb : ascii_eqb lastc "&"%char = false).
      { destruct (ascii_eqb lastc "&"%char) eqn:E'; [|reflexivity].
        apply ascii_eqb_eq in E'. subst. now destruct (Hlast eq_refl). }
      rewrite <- Hb. apply (Hshape _ lastc); [exact E|].
      now rewrite Hb.
    + apply last_None in E. rewrite E in HJ. discriminate.
Qed.

Lemma processCommand_words_witness :
  exists c : command,
    processCommand false zero_block (lit "kill -15 4711 &") = Ok c /\
    argv (arguments c) = [lit "kill"; lit "-15"; lit "4711"] /\
    null_terminated (arguments c) = true /\
    backgroundRun c = true.
Proof.
  apply (processCommand_words false zero_block
           (lit "kill") [lit "-15"; lit "4711"] true).
  - repeat constructor; try discriminate;
      intros H; vm_compute in H; intuition discriminate.
  - repeat constructor.
  - apply Nat.ltb_lt. reflexivity.
  - discriminate.
Defined.

(** X6.  With no more tokens than the array has slots, [processCommand]
    dereferences NULL exactly when the text it cuts has no token at all
    (blanks only, or nothing but the final [&]) or an operator is left
    without its operand; in every other case it returns a command. *)
Theorem processCommand_null_dereference (fm : bool) (block : command)
    (line : cstr) (lastc : ascii) :
  last line = Some lastc ->
  let toks := tokens (if ascii_eqb lastc "&"%char
                      then take (length line - 1) line else line) in
  length toks <= ARGUMENTS_SIZE ->
  (toks = [] \/ dangling (tail toks) = true ->
   processCommand fm block line = Fault NullDereference) /\
  (toks <> [] -> dangling (tail toks) = false ->
   exists c : command, processCommand fm block line = Ok c).
Proof.
  intros Hl toks Hlen. rewrite processCommand_tokens, Hl. cbv zeta.
  fold toks. destruct toks as [|first rest]; simpl tail.
  - split; [reflexivity|]. intros H; now destruct H.
  - simpl length in Hlen.
    pose proof (scan_tokens_outcome rest 1
      (initial_command block (ascii_eqb lastc "&"%char) first)
      ltac:(lia)) as Hscan.
    split.
    + intros [H|H]; [discriminate|]. rewrite H in Hscan. now rewrite Hscan.
    + intros _ H. rewrite H in Hscan. destruct Hscan as [c0 ->]. eauto.
Qed.

Lemma processCommand_null_dereference_witness :
  processCommand false zero_block (lit "sort > ") = Fault NullDereference /\
  processCommand false zero_block (lit "   &") = Fault NullDereference /\
  exists c, processCommand false zero_block (lit "sort > out") = Ok c.
Proof.
  split; [|split].
  - apply (processCommand_null_dereference false zero_block
             (lit "sort > ") " "%char eq_refl);
      [apply Nat.leb_le; reflexivity|]. now right.
  - apply (processCommand_null_dereference false zero_block
             (lit "   &") "&"%char eq_refl);
      [apply Nat.leb_le; reflexivity|]. now left.
  - apply (processCommand_null_dereference false zero_block
             (lit "sort > out") "t"%char eq_refl);
      [apply Nat.leb_le; reflexivity|discriminate|reflexivity].
Defined.

(** X7.  A line with 512 or more words behind the first, none of them
    an operator, makes [processCommand] write behind the last slot of
    [arguments]. *)
Theorem processCommand_too_many_arguments (fm : bool) (block : command)
    (line : cstr) (lastc : ascii) (first : cstr) (rest : list cstr) :
  last line = Some lastc ->
  tokens (if ascii_eqb lastc "&"%char
          then take (length line - 1) line else line) = first :: rest ->
  Forall (fun tok => is_operator tok = false) rest ->
  ARGUMENTS_SIZE <= length rest ->
  processCommand fm block line = Fault OutOfBounds.
Proof.
  intros Hl Htok Hplain Hlen.
  rewrite processCommand_tokens, Hl. cbv zeta. rewrite Htok.
  rewrite (scan_tokens_plain rest Hplain); [reflexivity| |lia].
  apply Nat.leb_le. reflexivity.
Qed.

Lemma processCommand_too_many_arguments_witness :
  processCommand false zero_block (join_words (replicate 513 (lit "a")))
  = Fault OutOfBounds.
Proof.
  apply (processCommand_too_many_arguments false zero_block _ "a"%char
           (lit "a") (replicate 512 (lit "a"))).
  - vm_compute. reflexivity.
  - vm_compute. reflexivity.
  - apply Forall_replicate. reflexivity.
  - rewrite length_replicate. apply Nat.leb_le. reflexivity.
Defined.

(** X8.  The operand of the last [<] that is read as an operator is the
    input file of the parsed command, whatever the mode and whatever
    the block held; it is a word of the line.  The same holds of [>] and
    the output file. *)
Theorem processCommand_redirection (fm : bool) (block : command)
    (line : cstr) (c : command) :
  processCommand fm block line = Ok c ->
  let toks := tail (tokens (if backgroundRun c
                            then take (length line - 1) line else line)) in
  (forall f, redirection (lit "<") toks = Some f ->
             inputFile c = Some f /\ is_word f) /\
  (forall f, redirection (lit ">") toks = Some f ->
             outputFile c = Some f /\ is_word f).
Proof.
  intros H.
  destruct (processCommand_Ok _ _ _ _ H)
    as (lastc & first & rest & c0 & _ & _ & Htok & Hscan & _ & Hc).
  pose proof (tokens_words
    (if backgroundRun c then take (length line - 1) line else line)) as Hw.
  rewrite Htok in *. simpl tail. cbv zeta.
  apply Forall_cons in Hw as [_ Hw].
  apply scan_tokens_files in Hscan as (_ & Hi & Ho).
  assert (Hword : forall op f, redirection op rest = Some f -> is_word f).
  { intros op f Hr. apply redirection_Some in Hr as (pre & post & ->).
    apply Forall_app in Hw as [_ Hw].
    apply Forall_cons in Hw as [_ Hw].
    now apply Forall_cons in Hw as [Hw _]. }
  split; intros f Hr; (split; [|now apply (Hword _ _ Hr)]).
  - rewrite Hr in Hi. now rewrite Hc, default_files_inputFile, Hi.
  - rewrite Hr in Ho. now rewrite Hc, default_files_outputFile, Ho.
Qed.

Lemma processCommand_redirection_witness :
  exists c : command,
    processCommand false zero_block (lit "cat < a < b > c &") = Ok c /\
    inputFile c = Some (lit "b") /\ outputFile c = Some (lit "c").
Proof.
  destruct (processCommand false zero_block (lit "cat < a < b > c &"))
    as [c|f] eqn:E; [|vm_compute in E; discriminate].
  exists c. split; [reflexivity|].
  destruct (processCommand_redirection _ _ _ _ E) as [Hi Ho].
  assert (Hbg : backgroundRun c = true).
  { assert (Hc : Ok c = processCommand false zero_block
                          (lit "cat < a < b > c &")) by now rewrite E.
    vm_compute in Hc. now injection Hc as ->. }
  rewrite Hbg in Hi, Ho.
  split; [apply Hi|apply Ho]; reflexivity.
Defined.

Lemma default_files_on (c : command) : default_files true c = c.
Proof. unfold default_files. now rewrite andb_false_r. Qed.

(** X9.  Foreground-only mode bears on nothing but the /dev/null
    defaults: the parse in any mode is the parse with the mode on,
    followed by the defaults.  A line that does not end in [&] parses
    the same in both modes. *)
Theorem processCommand_mode (fm : bool) (block : command) (line : cstr) :
  processCommand fm block line =
    (c ← processCommand true block line; Ok (default_files fm c)) /\
  (last line <> Some "&"%char ->
   processCommand fm block line = processCommand true block line).
Proof.
  rewrite !processCommand_tokens.
  destruct (last line) as [lastc|]; [|now split].
  cbv zeta.
  destruct (tokens _) as [|first rest]; [now split|].
  destruct (scan_tokens rest 1 _) as [c0|f] eqn:Hscan; [|now split].
  change (Ok c0 ≫= ?k) with (k c0). cbv beta.
  rewrite default_files_on.
  change (Ok c0 ≫= ?k) with (k c0). cbv beta.
  split; [reflexivity|].
  intros Hlast. f_equal.
  apply scan_tokens_files in Hscan as (Hb & _). simpl in Hb.
  unfold default_files. rewrite Hb.
  destruct (ascii_eqb lastc "&"%char) eqn:E; [|reflexivity].
  apply ascii_eqb_eq in E. now subst.
Qed.

Lemma processCommand_mode_witness :
  processCommand false zero_block (lit "sleep 5")
  = processCommand true zero_block (lit "sleep 5").
Proof.
  apply (processCommand_mode false zero_block (lit "sleep 5")).
  discriminate.
Defined.

End ParserExtras.

(* ================================================================== *)
(** ** The end of a turn of main                                       *)
(* ================================================================== *)

Section CleanupFacts.
Import Parser Shell.

Local Open Scope nat_scope.

Lemma clear_arguments_argv (slots : list (option cstr)) :
  clear_arguments slots =
  replicate (length (argv slots)) None ++ drop (length (argv slots)) slots.
Proof.
  induction slots as [|[a|] slots IH]; simpl; [reflexivity| |reflexivity].
  now rewrite IH.
Qed.

(** [processCommand] reads nothing of the block but its two file
    pointers. *)
Lemma processCommand_block (fm : bool) (b1 b2 : command) (line : cstr) :
  inputFile b1 = inputFile b2 ->
  outputFile b1 = outputFile b2 ->
  processCommand fm b1 line = processCommand fm b2 line.
Proof.
  intros Hi Ho. rewrite !processCommand_tokens.
  unfold initial_command. now rewrite Hi, Ho.
Qed.

(** X10.  The block [main] hands back at the end of a turn has both
    file pointers NULL, and a command parsed into it is the command
    parsed into zeroed memory.  Its loop over the arguments clears the
    slots before the first NULL and leaves the others as they are. *)
Theorem main_cleanup_cleared (c b : command) :
  main_cleanup c = Ok b ->
  cleared b /\
  arguments b =
    replicate (length (argv (arguments c))) None
    ++ drop (length (argv (arguments c))) (arguments c) /\
  forall (fm : bool) (line : cstr),
    processCommand fm b line = processCommand fm zero_block line.
Proof.
  unfold main_cleanup.
  destruct (_ <? _); [|discriminate]. intros [= <-].
  split; [split; reflexivity|]. split.
  - apply clear_arguments_argv.
  - intros fm line. now apply processCommand_block.
Qed.

Lemma main_cleanup_cleared_witness :
  exists b : command,
    main_cleanup (words "wc < in.txt -l") = Ok b /\
    cleared b /\
    take 3 (arguments b) = [None; None; Some (lit "-l")].
Proof.
  destruct (main_cleanup (words "wc < in.txt -l")) as [b|f] eqn:E;
    [|vm_compute in E; discriminate].
  exists b. split; [reflexivity|].
  destruct (main_cleanup_cleared _ _ E) as (Hc & Ha & _).
  split; [exact Hc|]. rewrite Ha. vm_compute. reflexivity.
Defined.

End CleanupFacts.

(* ================================================================== *)
(** ** More about the signal handler and the reaper                    *)
(* ================================================================== *)

Section ProcessFacts.
Import Parser Shell.

Context {W : WaitStatus}.

Lemma put_stdout_nil (p : process) : put_stdout [] p = p.
Proof. destruct p. unfold put_stdout. simpl. now rewrite app_nil_r. Qed.

Lemma put_stdout_put_stdout (a b : list ascii) (p : process) :
  put_stdout b (put_stdout a p) = put_stdout (a ++ b) p.
Proof. unfold put_stdout. simpl. now rewrite app_assoc. Qed.

Lemma handle_SIGTSTP_frame (q : process) :
  stderr (handle_SIGTSTP q) = stderr q /\ cwd (handle_SIGTSTP q) = cwd q /\
  sigint (handle_SIGTSTP q) = sigint q /\
  sigtstp (handle_SIGTSTP q) = sigtstp q /\
  fd0 (handle_SIGTSTP q) = fd0 q /\ fd1 (handle_SIGTSTP q) = fd1 q.
Proof.
  unfold handle_SIGTSTP. destruct (negb (foregroundMode q));
    repeat split; reflexivity.
Qed.

(** X11.  After [n] deliveries of SIGTSTP the mode is what it was when
    [n] is even and the opposite when [n] is odd; the handler touches
    nothing of the process but the mode and standard output, which only
    grows. *)
Theorem handle_SIGTSTP_deliveries (n : nat) (p : process) :
  let p' := Nat.iter n handle_SIGTSTP p in
  foregroundMode p' =
    (if Nat.even n then foregroundMode p else negb (foregroundMode p)) /\
  (exists written, stdout p' = stdout p ++ written) /\
  stderr p' = stderr p /\ cwd p' = cwd p /\
  sigint p' = sigint p /\ sigtstp p' = sigtstp p /\
  fd0 p' = fd0 p /\ fd1 p' = fd1 p.
Proof.
  cbv zeta. induction n as [|n (Hm & [w Hw] & He & Hc & Hi & Ht & H0 & H1)].
  - simpl. repeat split; auto. exists []. now rewrite app_nil_r.
  - change (Nat.iter (S n) handle_SIGTSTP p)
      with (handle_SIGTSTP (Nat.iter n handle_SIGTSTP p)).
    pose proof (handle_SIGTSTP_once (Nat.iter n handle_SIGTSTP p))
      as [Hm' Hout].
    rewrite Nat.even_succ, <- Nat.negb_even.
    split.
    { rewrite Hm', Hm. destruct (Nat.even n); simpl; [reflexivity|].
      apply negb_involutive. }
    split.
    { rewrite Hout, Hw, <- app_assoc. eauto. }
    rewrite <- He, <- Hc, <- Hi, <- Ht, <- H0, <- H1.
    apply handle_SIGTSTP_frame.
Qed.

(** What [checkBackgroundProcesses] does for one child. *)
Lemma background_report_step (bPid bStatus : Z) (p : process) :
  (if WIFEXITED bStatus then
     printf_d (lit "exit value ") (WEXITSTATUS bStatus) newline
       (printf_d (lit "background pid ") bPid (lit " is done: ") p)
   else if WIFSIGNALED bStatus then
     printf_d (lit "terminated by signal ") (WTERMSIG bStatus) newline
       (printf_d (lit "background pid ") bPid (lit " is done: ") p)
   else printf_d (lit "background pid ") bPid (lit " is done: ") p)
  = put_stdout (background_report bPid bStatus) p.
Proof.
  unfold background_report, printf_d.
  destruct (WIFEXITED bStatus); [|destruct (WIFSIGNALED bStatus)];
    rewrite ?put_stdout_put_stdout, <- ?app_assoc, ?app_nil_r;
    reflexivity.
Qed.

(** X12.  [checkBackgroundProcesses] writes one report for each child
    it reaped, in the order they were reaped, and changes nothing else.
    The report of a child that neither exited nor was killed by a signal
    ends behind "is done: ", without a newline. *)
Theorem checkBackgroundProcesses_reports (reaped : list (Z * Z))
    (p : process) :
  checkBackgroundProcesses reaped p =
  put_stdout
    (concat (map (fun child => background_report child.1 child.2) reaped)) p.
Proof.
  unfold checkBackgroundProcesses.
  revert p; induction reaped as [|[bPid bStatus] reaped IH]; intros p.
  - cbn [fold_left map concat]. now rewrite put_stdout_nil.
  - cbn [fold_left map concat fst snd]. rewrite IH.
    rewrite (background_report_step bPid bStatus p).
    apply put_stdout_put_stdout.
Qed.

End ProcessFacts.

(* ================================================================== *)
(** ** More about runCommand                                           *)
(* ================================================================== *)

Section ExecutorExtras.
Import Parser Shell.

Context {W : WaitStatus}.

Ltac grows :=
  first [ exists []; rewrite app_nil_r; reflexivity
        | eexists; rewrite <- ?app_assoc; reflexivity ].

Ltac frame_leaf :=
  simpl; repeat split; try reflexivity; try grows.

(** What [runCommand] leaves alone: the mode; the working directory,
    unless the command is "cd"; and what was written before to either
    stream. *)
Lemma runCommand_keeps (k : kernel) (p : process) (c : command)
    (fStatus : Z) (p' : process) :
  final_process (runCommand k p c fStatus) = Some p' ->
  foregroundMode p' = foregroundMode p /\
  (exists written, stdout p' = stdout p ++ written) /\
  (exists written, stderr p' = stderr p ++ written) /\
  (arguments c !! 0%nat <> Some (Some (lit "cd")) -> cwd p' = cwd p).
Proof.
  unfold runCommand.
  destruct (arguments c !! 0%nat) as [[name|]|] eqn:Hname; try discriminate.
  destruct (streq name (lit "exit")).
  { intros [= <-]. frame_leaf. }
  destruct (streq name (lit "cd")) eqn:Hcd.
  { apply streq_eq in Hcd. subst name.
    destruct (arguments c !! 1%nat) as [[dir|]|]; try discriminate;
      unfold chdir; destruct (chdir_to k (cwd p) _);
      intros [= <-]; frame_leaf; intros; congruence. }
  destruct (streq name (lit "status")).
  { destruct (WIFEXITED fStatus); [|destruct (WIFSIGNALED fStatus)];
      intros [= <-]; frame_leaf. }
  destruct (fork_returns k =? -1).
  { intros [= <-]. frame_leaf. }
  destruct (fork_returns k =? 0).
  - unfold child.
    destruct (negb (backgroundRun c) || foregroundMode (set_sigtstp SIG_IGN p));
      (destruct (inputFile c) as [fi|];
       [destruct (open_rdonly k fi);
        [destruct (dup2_errtext k 0)|]|]);
      try (intros [= <-]; frame_leaf; fail);
      (destruct (outputFile c) as [fo|];
       [destruct (open_trunc k fo);
        [destruct (dup2_errtext k 1)|]|]);
      try (intros [= <-]; frame_leaf; fail);
      (destruct (null_terminated (arguments c));
       [destruct (execvp_succeeds k name _)|]); try discriminate;
      intros [= <-]; frame_leaf.
  - unfold parent.
    destruct (backgroundRun c), (foregroundMode p) eqn:Hfm; simpl;
      rewrite ?Hfm; simpl;
      try (intros [= <-]; frame_leaf; fail);
      destruct (waitpid_status k) as [st|];
      try (destruct (WIFSIGNALED st)); try (destruct (WIFSIGNALED fStatus));
      simpl; rewrite ?Hfm; intros [= <-]; frame_leaf; auto.
Qed.

(** X13.  [runCommand] never changes the mode, changes the working
    directory only for "cd", and only adds to what the two streams hold. *)
Theorem runCommand_frame (k : kernel) (p : process) (c : command)
    (fStatus : Z) (p' : process) :
  final_process (runCommand k p c fStatus) = Some p' ->
  foregroundMode p' = foregroundMode p /\
  (exists written, stdout p' = stdout p ++ written) /\
  (exists written, stderr p' = stderr p ++ written) /\
  (arguments c !! 0%nat <> Some (Some (lit "cd")) -> cwd p' = cwd p).
Proof. apply runCommand_keeps. Qed.


(** The conditions under which [runCommand] forks: the first argument is
    none of the three built-in names. *)
Lemma runCommand_external (k : kernel) (p : process) (c : command)
    (fStatus : Z) (name : cstr) :
  arguments c !! 0%nat = Some (Some name) ->
  streq name (lit "exit") = false ->
  streq name (lit "cd") = false ->
  streq name (lit "status") = false ->
  runCommand k p c fStatus =
  if fork_returns k =? -1 then
    Exits 1 (perror (lit "fork()" ++ newline) (fork_errtext k) p)
  else if fork_returns k =? 0 then child k c name p
  else parent k c (fork_returns k) fStatus p.
Proof.
  intros Hname He Hc Hs. unfold runCommand. now rewrite Hname, He, Hc, Hs.
Qed.

(** A failed [fork] is reported and ends the shell: for every external
    command [runCommand] writes the message of [perror] to the error
    stream and calls [exit(1)]. *)
Lemma runCommand_fork_failure (k : kernel) (p : process) (c : command)
    (fStatus : Z) (name : cstr) :
  arguments c !! 0%nat = Some (Some name) ->
  streq name (lit "exit") = false ->
  streq name (lit "cd") = false ->
  streq name (lit "status") = false ->
  fork_returns k = -1 ->
  runCommand k p c fStatus =
  Exits 1 (perror (lit "fork()" ++ newline) (fork_errtext k) p).
Proof.
  intros Hname He Hc Hs Hfork.
  now rewrite (runCommand_external k p c fStatus name Hname He Hc Hs), Hfork.
Qed.

(** The built-in "exit" ends the shell with status 0, whatever else the
    line holds, and writes nothing. *)
Lemma runCommand_exit_builtin (k : kernel) (p : process) (c : command)
    (fStatus : Z) :
  arguments c !! 0%nat = Some (Some (lit "exit")) ->
  runCommand k p c fStatus = Exits 0 p.
Proof. intros Hname. unfold runCommand. now rewrite Hname. Qed.

(** X14.  In the child that [fork] created, [runCommand] never returns
    to the loop of [main].  With a NULL-terminated array of arguments it
    ends in [exit(1)] or in the program [execvp] started on the argument
    vector; the child then ignores SIGTSTP, and SIGINT is reset to its
    default action for a foreground command or while foreground-only
    mode is on, and left as the shell had it for a background command. *)
Theorem runCommand_child (k : kernel) (p : process) (c : command)
    (fStatus : Z) (name : cstr) :
  arguments c !! 0%nat = Some (Some name) ->
  streq name (lit "exit") = false ->
  streq name (lit "cd") = false ->
  streq name (lit "status") = false ->
  fork_returns k = 0 ->
  (forall st p', runCommand k p c fStatus <> Returns st p') /\
  (null_terminated (arguments c) = true ->
   exists p' : process,
     (runCommand k p c fStatus = Exits 1 p' \/
      runCommand k p c fStatus = Execs name (argv (arguments c)) p') /\
     sigtstp p' = SIG_IGN /\
     sigint p' = (if negb (backgroundRun c) || foregroundMode p
                  then SIG_DFL else sigint p)).
Proof.
  intros Hname He Hc Hs Hfork.
  rewrite (runCommand_external k p c fStatus name Hname He Hc Hs), Hfork.
  simpl Z.eqb. cbv iota. unfold child.
  change (foregroundMode (set_sigtstp SIG_IGN p)) with (foregroundMode p).
  split.
  - intros st p'.
    destruct (negb (backgroundRun c) || foregroundMode p);
      (destruct (inputFile c) as [fi|];
       [destruct (open_rdonly k fi);
        [destruct (dup2_errtext k 0)|]|]);
      try discriminate;
      (destruct (outputFile c) as [fo|];
       [destruct (open_trunc k fo);
        [destruct (dup2_errtext k 1)|]|]);
      try discriminate;
      (destruct (null_terminated (arguments c));
       [destruct (execvp_succeeds k name _)|]); discriminate.
  - intros ->.
    destruct (negb (backgroundRun c) || foregroundMode p);
      (destruct (inputFile c) as [fi|];
       [destruct (open_rdonly k fi);
        [destruct (dup2_errtext k 0)|]|]);
      try (eexists; split; [left; reflexivity|split; reflexivity]);
      (destruct (outputFile c) as [fo|];
       [destruct (open_trunc k fo);
        [destruct (dup2_errtext k 1)|]|]);
      try (eexists; split; [left; reflexivity|split; reflexivity]);
      destruct (execvp_succeeds k name _);
      eexists; (split; [first [left; reflexivity | right; reflexivity]|]);
      split; reflexivity.
Qed.

(** X15.  In the child, a file that cannot be opened ends the command
    before the program is started: the child writes which file it could
    not open and leaves with status 1.  An input file that does not
    open is reported before the output file is looked at. *)
Theorem runCommand_child_open_failure (k : kernel) (p : process)
    (c : command) (fStatus : Z) (name : cstr) :
  arguments c !! 0%nat = Some (Some name) ->
  streq name (lit "exit") = false ->
  streq name (lit "cd") = false ->
  streq name (lit "status") = false ->
  fork_returns k = 0 ->
  (forall f, inputFile c = Some f -> open_rdonly k f = false ->
     exists p', runCommand k p c fStatus = Exits 1 p' /\
       stdout p' = stdout p ++ lit "cannot open " ++ f
                            ++ lit " for input" ++ newline /\
       fd0 p' = fd0 p /\ fd1 p' = fd1 p) /\
  (forall f, inputFile c = None -> outputFile c = Some f ->
     open_trunc k f = false ->
     exists p', runCommand k p c fStatus = Exits 1 p' /\
       stdout p' = stdout p ++ lit "cannot open " ++ f
                            ++ lit " for output" ++ newline /\
       fd1 p' = fd1 p).
Proof.
  intros Hname He Hc Hs Hfork.
  rewrite (runCommand_external k p c fStatus name Hname He Hc Hs), Hfork.
  simpl Z.eqb. cbv iota. unfold child. split.
  - intros f Hin Hopen. rewrite Hin, Hopen.
    eexists. split; [reflexivity|].
    destruct (negb (backgroundRun c) || _); repeat split.
  - intros f Hin Hout Hopen. rewrite Hin, Hout, Hopen.
    eexists. split; [reflexivity|].
    destruct (negb (backgroundRun c) || _); repeat split.
Qed.

(** X16.  When the redirections of the command succeed and the program
    cannot be executed, the child writes "<name>: command not found" and
    leaves with status 1, whether or not the command has an input or an
    output file.  It writes the line after the redirections: with an
    output file that [dup2] put on descriptor 1, standard output is that
    file by then, and the line goes there. *)
Theorem runCommand_command_not_found (k : kernel) (p : process)
    (c : command) (fStatus : Z) (name : cstr) :
  arguments c !! 0%nat = Some (Some name) ->
  streq name (lit "exit") = false ->
  streq name (lit "cd") = false ->
  streq name (lit "status") = false ->
  fork_returns k = 0 ->
  (forall f, inputFile c = Some f -> open_rdonly k f = true) ->
  (forall f, outputFile c = Some f -> open_trunc k f = true) ->
  null_terminated (arguments c) = true ->
  execvp_succeeds k name (argv (arguments c)) = false ->
  exists p' : process,
    runCommand k p c fStatus = Exits 1 p' /\
    stdout p' = stdout p ++ name ++ lit ": command not found" ++ newline /\
    fd1 p' = match outputFile c, dup2_errtext k 1 with
             | Some f, None => Some f
             | _, _ => fd1 p
             end.
Proof.
  intros Hname He Hc Hs Hfork Hin Hout Hterm Hexec.
  rewrite (runCommand_external k p c fStatus name Hname He Hc Hs), Hfork.
  simpl Z.eqb. cbv iota. unfold child.
  rewrite Hterm, Hexec.
  destruct (inputFile c) as [fi|];
    [rewrite (Hin fi eq_refl); destruct (dup2_errtext k 0)|];
    (destruct (outputFile c) as [fo|];
     [rewrite (Hout fo eq_refl); destruct (dup2_errtext k 1)|]);
    (eexists; split; [reflexivity|]);
    destruct (negb (backgroundRun c) || _); repeat split.
Qed.

(** X17.  In the parent, a command that is not in the background, or
    any command while foreground-only mode is on, is waited for:
    [runCommand] returns the status [waitpid] stored, writes
    " terminated by signal N" when that status is one of a child killed
    by a signal, and writes no "background pid" line. *)
Theorem runCommand_foreground (k : kernel) (p : process) (c : command)
    (fStatus st : Z) (name : cstr) :
  arguments c !! 0%nat = Some (Some name) ->
  streq name (lit "exit") = false ->
  streq name (lit "cd") = false ->
  streq name (lit "status") = false ->
  fork_returns k <> -1 ->
  fork_returns k <> 0 ->
  backgroundRun c = false \/ foregroundMode p = true ->
  waitpid_status k = Some st ->
  runCommand k p c fStatus =
  Returns st
    (if WIFSIGNALED st
     then put_stdout (lit " terminated by signal " ++ dec (WTERMSIG st)
                        ++ newline) p
     else p).
Proof.
  intros Hname He Hc Hs Hf1 Hf0 Hfg Hwait.
  rewrite (runCommand_external k p c fStatus name Hname He Hc Hs).
  apply Z.eqb_neq in Hf1, Hf0. rewrite Hf1, Hf0.
  unfold parent. rewrite Hwait.
  assert (Hcond : negb (backgroundRun c) || foregroundMode p = true).
  { destruct Hfg as [-> | ->]; [reflexivity|apply orb_true_r]. }
  rewrite Hcond.
  assert (Hnot : forall q, foregroundMode q = foregroundMode p ->
                   backgroundRun c && negb (foregroundMode q) = false).
  { intros q ->. destruct Hfg as [-> | ->]; [reflexivity|apply andb_false_r]. }
  destruct (WIFSIGNALED st); cbv beta iota zeta; now rewrite Hnot.
Qed.

End ExecutorExtras.

(* ================================================================== *)
(** ** A turn of the loop of main                                      *)
(* ================================================================== *)

Section LoopExtras.
Import Parser Shell.

Context {W : WaitStatus}.

Local Open Scope nat_scope.

Lemma strstr_marker_absent (s : cstr) :
  Forall (fun ch => ascii_eqb "$" ch = false) s ->
  strstr s Expander.marker = None.
Proof.
  induction 1 as [|ch s Hch _ IH]; [reflexivity|].
  now rewrite strstr_marker_cons_ne, IH.
Qed.

(** X18.  A line of blanks, or blanks with a final [&], passes the
    tests of [main] for empty lines and comments and makes
    [processCommand] hand NULL to [strdup]: the turn ends in undefined
    behaviour, whatever the system answers. *)
Theorem main_loop_blank_line (k : kernel) (reaped : list (Z * Z))
    (block : command) (pid fStatus : Z) (p : process)
    (n : nat) (bg : bool) :
  0 < n \/ bg = true ->
  n + 1 < Expander.NEWSTRING_SIZE ->
  main_loop_body k reaped block
    (replicate n " "%char ++ (if bg then ["&"%char] else []))
    pid fStatus p
  = Undefined NullDereference.
Proof.
  intros Hne Hfit.
  set (input := replicate n " "%char ++ (if bg then ["&"%char] else [])).
  assert (Hexp : Expander.variableExpansion input Expander.marker pid
                 = Ok input).
  { apply variableExpansion_no_marker.
    - apply strstr_marker_absent, Forall_app. split.
      + apply Forall_replicate. reflexivity.
      + destruct bg; repeat constructor.
    - unfold input. rewrite length_app, length_replicate.
      destruct bg; simpl; lia. }
  assert (Hparse : forall fm, processCommand fm block input
                              = Fault NullDereference).
  { intros fm. rewrite processCommand_tokens. unfold input. destruct bg.
    - rewrite last_snoc. cbv zeta.
      change (ascii_eqb "&" "&") with true. cbv iota.
      rewrite length_app, length_replicate. simpl length.
      rewrite Nat.add_sub.
      rewrite <- (length_replicate n " "%char) at 1.
      rewrite take_app_length, tokens_blanks. reflexivity.
    - rewrite app_nil_r. destruct n as [|n]; [destruct Hne; [lia|discriminate]|].
      rewrite replicate_S_end, last_snoc. cbv zeta.
      change (ascii_eqb " " "&") with false. cbv iota.
      rewrite <- replicate_S_end, tokens_blanks. reflexivity. }
  unfold main_loop_body. fold input. rewrite Hexp, Hparse.
  assert (Hfirst : exists ch rest, input = ch :: rest /\
                     ascii_eqb ch "#"%char = false).
  { unfold input. destruct n as [|n].
    - destruct Hne as [Hn | ->]; [lia|]. now exists "&"%char, [].
    - simpl. eexists _, _. split; reflexivity. }
  destruct Hfirst as (ch & rest & -> & Hch).
  cbn [streq]. now rewrite Hch.
Qed.



(** X20.  Whatever a turn of [main] does, it does not change the mode,
    and what it writes to standard output begins with the reports of
    the children it reaped, followed by the prompt. *)
Theorem main_loop_frame (k : kernel) (reaped : list (Z * Z))
    (block : command) (input : cstr) (pid fStatus : Z) (p p' : process) :
  final_process (main_loop_body k reaped block input pid fStatus p)
    = Some p' ->
  foregroundMode p' = foregroundMode p /\
  exists written,
    stdout p' =
    stdout p
    ++ concat (map (fun child => background_report child.1 child.2) reaped)
    ++ prompt ++ written.
Proof.
  unfold main_loop_body.
  rewrite checkBackgroundProcesses_reports.
  set (reports := concat _).
  assert (Hhere : foregroundMode (put_stdout prompt (put_stdout reports p))
                  = foregroundMode p /\
                  stdout (put_stdout prompt (put_stdout reports p))
                  = stdout p ++ reports ++ prompt ++ []).
  { split; [reflexivity|]. unfold put_stdout. cbn [stdout].
    now rewrite app_nil_r, <- app_assoc. }
  destruct Hhere as [Hm Hout].
  destruct (streq input []); [intros [= <-]; eauto|].
  destruct (match input with
            | [] => false
            | ch :: _ => ascii_eqb ch "#"%char
            end); [intros [= <-]; eauto|].
  destruct (Expander.variableExpansion input Expander.marker pid)
    as [expanded|]; [|discriminate].
  change (foregroundMode (put_stdout prompt (put_stdout reports p)))
    with (foregroundMode p).
  destruct (processCommand _ block expanded) as [c|]; [|discriminate].
  intros H. apply runCommand_keeps in H as (Hm' & [w Hw] & _).
  split; [now rewrite Hm'|].
  exists w. rewrite Hw, Hout, app_nil_r, <- !app_assoc. reflexivity.
Qed.

End LoopExtras.

Section ExtraExamples.
Import Parser Shell.

Lemma main_loop_blank_line_witness :
  main_loop_body (W := Linux.wait_status) example_linux [] zero_block
    (lit "   ") 4711 0 example_shell
  = Undefined NullDereference.
Proof.
  apply (main_loop_blank_line (W := Linux.wait_status) example_linux []
           zero_block 4711 0 example_shell 3 false).
  - left. apply Nat.ltb_lt. reflexivity.
  - apply Nat.ltb_lt. reflexivity.
Defined.


Lemma main_loop_frame_witness :
  exists written,
    stdout (put_stdout (lit "background pid 77 is done: exit value 1"
                          ++ newline ++ lit ": exit value 0" ++ newline)
              example_shell)
    = stdout example_shell
      ++ concat (map (fun child =>
                        background_report (W := Linux.wait_status)
                          child.1 child.2) [(77, 256)%Z])
      ++ prompt ++ written.
Proof.
  apply (main_loop_frame (W := Linux.wait_status) example_linux
           [(77, 256)%Z] zero_block (lit "status") 4711 0 example_shell).
  reflexivity.
Defined.

Lemma runCommand_frame_witness :
  cwd example_shell = lit "/" /\
  foregroundMode
    (set_cwd (lit "/home/user") example_shell) = foregroundMode example_shell.
Proof.
  split; [reflexivity|].
  apply (runCommand_frame (W := Linux.wait_status) example_linux
           example_shell (words "cd") 0).
  reflexivity.
Defined.

Lemma runCommand_child_witness :
  exists p' : process,
    runCommand (W := Linux.wait_status) example_child_kernel example_shell
      (words "ls -l &") 0 = Execs (lit "ls") [lit "ls"; lit "-l"] p' /\
    sigtstp p' = SIG_IGN /\ sigint p' = SIG_IGN.
Proof.
  destruct (proj2 (runCommand_child (W := Linux.wait_status)
                     example_child_kernel example_shell (words "ls -l &") 0
                     (lit "ls") eq_refl eq_refl eq_refl eq_refl eq_refl)
              eq_refl)
    as (p' & [Hrun | Hrun] & Htstp & Hint).
  - discriminate Hrun.
  - exists p'. split; [exact Hrun|]. split; [exact Htstp|exact Hint].
Defined.

Lemma runCommand_child_open_failure_witness :
  exists p' : process,
    runCommand (W := Linux.wait_status) example_child_kernel example_shell
      (words "sort < missing.txt > out") 0 = Exits 1 p' /\
    stdout p' = lit "cannot open missing.txt for input" ++ newline /\
    fd1 p' = None.
Proof.
  destruct (proj1 (runCommand_child_open_failure (W := Linux.wait_status)
              example_child_kernel example_shell
              (words "sort < missing.txt > out") 0 (lit "sort")
              eq_refl eq_refl eq_refl eq_refl eq_refl)
              (lit "missing.txt") eq_refl eq_refl)
    as (p' & Hrun & Hout & _ & Hfd).
  exists p'. split; [exact Hrun|]. split; [exact Hout|exact Hfd].
Defined.

Lemma runCommand_command_not_found_witness :
  (exists p' : process,
     runCommand (W := Linux.wait_status) example_child_kernel example_shell
       (words "frobnicate > out") 0 = Exits 1 p' /\
     stdout p' = lit "frobnicate: command not found" ++ newline /\
     fd1 p' = Some (lit "out")) /\
  (exists p' : process,
     runCommand (W := Linux.wait_status) example_child_kernel example_shell
       (words "frobnicate -x < in.txt") 0 = Exits 1 p' /\
     stdout p' = lit "frobnicate: command not found" ++ newline /\
     fd1 p' = None).
Proof.
  split.
  - apply (runCommand_command_not_found (W := Linux.wait_status)
             example_child_kernel example_shell (words "frobnicate > out") 0
             (lit "frobnicate"));
      first [reflexivity | (intros f [= <-]; reflexivity)
            | (intros f; discriminate)].
  - apply (runCommand_command_not_found (W := Linux.wait_status)
             example_child_kernel example_shell
             (words "frobnicate -x < in.txt") 0 (lit "frobnicate"));
      first [reflexivity | (intros f [= <-]; reflexivity)
            | (intros f; discriminate)].
Defined.

Lemma runCommand_foreground_witness :
  runCommand (W := Linux.wait_status) (example_kernel 1234 768)
    (set_foregroundMode true example_shell) (words "sleep 5 &") 0
  = Returns 768 (set_foregroundMode true example_shell).
Proof.
  apply (runCommand_foreground (W := Linux.wait_status)
           (example_kernel 1234 768)
           (set_foregroundMode true example_shell) (words "sleep 5 &")
           0 768 (lit "sleep"));
    first [reflexivity | discriminate | (right; reflexivity)].
Defined.

End ExtraExamples.
